(** * Sigma rule translation: QRadar backend and log-source configuration

    A shallow embedding of

    - [sigma/backends/qradar.py]  (class [QRadarBackend]), and
    - [sigma/configuration.py]    (classes [SigmaConfiguration] and
      [SigmaLogsourceConfiguration]),

    followed by the properties of the translation that the specification
    states about them.

    Python values are modelled by the types below.  A raised exception is the
    [Err] case of [result]; an attribute assignment on [self] is a new record
    returned next to the outcome, so a state change made before a [raise]
    is kept. *)

From stdpp Require Import base option list gmap strings pretty.
From Stdlib Require Import ZArith Ascii.

Set Warnings "-register-all".

(** ** Exceptions *)

(** One constructor per [raise] site of the two modules (the name the
    specification gives to the failure, the Python class in the comment),
    and three for the interpreter's own errors on ill-typed documents. *)
Inductive exn :=
  | UnsupportedNodeKind              (* TypeError, generateNode *)
  | UnsupportedMapValueType          (* TypeError, generateMapItemNode *)
  | UnsupportedAggregation           (* NotImplementedError, generateAggregation *)
  | MergeConflict                    (* ValueError, merge of category/product/service *)
  | InvalidMergeMethod               (* ValueError, merge of conditions *)
  | InvalidDefaultIndexType          (* TypeError, default index *)
  | SigmaConfigParseError (msg : string)
  | PyTypeError                      (* subscript of a non-mapping *)
  | PyValueError                     (* unpacking of a non-pair *)
  | PyAttributeError.                (* [.items()] / [.index] of a non-mapping / None *)

Inductive result (A : Type) :=
  | OK (a : A)
  | Err (e : exn).
Arguments OK {A} a.
Arguments Err {A} e.

Definition bind {A B} (r : result A) (k : A → result B) : result B :=
  match r with
  | OK a => k a
  | Err e => Err e
  end.

Notation "'do' x <- r ; k" := (bind r (fun x => k))
  (at level 10, x name, r at level 100, k at level 200).

(** [[f(x) for x in l]] where [f] may raise: the first exception wins. *)
Fixpoint collect {A} (l : list (result A)) : result (list A) :=
  match l with
  | [] => OK []
  | r :: rest => do a <- r; do tl <- collect rest; OK (a :: tl)
  end.

(** ** Python strings *)

Module Py.

(** [sep.join(l)] *)
Fixpoint join (sep : string) (l : list string) : string :=
  match l with
  | [] => EmptyString
  | [s] => s
  | s :: rest => s +:+ sep +:+ join sep rest
  end.

(** [c in s] for a one-character string [c] *)
Fixpoint has_char (c : ascii) (s : string) : bool :=
  match s with
  | EmptyString => false
  | String a rest => Ascii.eqb a c || has_char c rest
  end.

(** [sub in s] *)
Fixpoint contains (sub s : string) : bool :=
  String.prefix sub s ||
  match s with
  | EmptyString => false
  | String _ rest => contains sub rest
  end.

(** [s.replace(old, new)] for one-character [old] and [new] *)
Fixpoint replace_char (old new : ascii) (s : string) : string :=
  match s with
  | EmptyString => EmptyString
  | String a rest =>
      String (if Ascii.eqb a old then new else a) (replace_char old new rest)
  end.

(** [str(n)] for an [int] *)
Definition str_int (n : Z) : string := pretty n.

(** The digits of [\xhh] escapes *)
Definition hex_digit (n : N) : ascii :=
  match n with
  | 0 => "0" | 1 => "1" | 2 => "2" | 3 => "3" | 4 => "4" | 5 => "5"
  | 6 => "6" | 7 => "7" | 8 => "8" | 9 => "9" | 10 => "a" | 11 => "b"
  | 12 => "c" | 13 => "d" | 14 => "e" | _ => "f"
  end%char%N.

(** What [repr] writes for one character of a string quoted with [quote]:
    the quote and the backslash (code 92) get a backslash, tab, newline and
    carriage return their letter escapes, the other control characters
    (below the blank, and code 127) a [\xhh] escape; every other character
    is copied.  A string is the sequence of the bytes of its UTF-8 text;
    the characters outside ASCII are taken to be printable ones, which
    [repr] copies. *)
Definition repr_char (quote c : ascii) : string :=
  let code := N_of_ascii c in
  if Ascii.eqb c quote || Ascii.eqb c "092" then String "092" (String c EmptyString)
  else if Ascii.eqb c "009" then String "092" "t"
  else if Ascii.eqb c "010" then String "092" "n"
  else if Ascii.eqb c "013" then String "092" "r"
  else if (code <? 32)%N || (code =? 127)%N
       then String "092" (String "x" (String (hex_digit (code / 16))
                                        (String (hex_digit (code mod 16)) EmptyString)))
  else String c EmptyString.

Fixpoint repr_chars (quote : ascii) (s : string) : string :=
  match s with
  | EmptyString => EmptyString
  | String c rest => repr_char quote c +:+ repr_chars quote rest
  end.

(** [repr(s)] for a [str]: single quotes around the escaped text, double
    quotes (code 34) when the string has a single quote and no double
    quote. *)
Definition repr_str (s : string) : string :=
  let quote := if has_char "'" s && negb (has_char "034" s) then "034"%char
               else "'"%char in
  String quote (repr_chars quote s +:+ String quote EmptyString).

End Py.

(** ** Configuration documents *)

(** What [yaml.safe_load] returns (floats and dates left out).  A mapping is
    the list of its items in document order; its keys are distinct. *)
Inductive yaml :=
  | YNull
  | YBool (b : bool)
  | YInt (n : Z)
  | YStr (s : string)
  | YList (l : list yaml)
  | YDict (d : list (string * yaml)).

Definition dict : Type := list (string * yaml).

(** [d[k]], [None] standing for [KeyError] *)
Fixpoint getitem (k : string) (d : dict) : option yaml :=
  match d with
  | [] => None
  | (k', v) :: rest => if String.eqb k' k then Some v else getitem k rest
  end.

Definition is_str (v : yaml) : bool :=
  match v with YStr _ => true | _ => false end.

(** The members of a list of strings; [None] when some member is not a [str]. *)
Fixpoint str_list (l : list yaml) : option (list string) :=
  match l with
  | [] => Some []
  | YStr s :: rest => cons s <$> str_list rest
  | _ :: _ => None
  end.

(** ** Condition trees *)

(** Modelled from the spec: a scalar of a rule, [str] or [int]. *)
Inductive scalar :=
  | Str (s : string)
  | Int (n : Z).

(** Modelled from the spec: the condition tree, whose classes live in
    [sigma.parser.condition], which is not among the sources.  One
    constructor per case of the type dispatch in [generateNode]: the classes,
    a [tuple] [(key, value)], a [str] or [int], a [list] of [str] and
    [int] members (what the rule parser builds), and [Unexpected] for an
    object of any other type ([None], a [bool], a mapping, ...).  A list
    with a member of another type is [Unexpected] of that list: as the value
    of a map item it takes the list path of the renderer like any list;
    outside a map item the specification gives it no rendering. *)
Inductive node :=
  | ConditionAND (items : list node)
  | ConditionOR (items : list node)
  | ConditionNOT (item : node)
  | ConditionNULLValue (item : string)
  | ConditionNotNULLValue (item : string)
  | NodeSubexpression (items : node)
  | MapItem (key : string) (value : node)
  | Scalar (v : scalar)
  | ListValue (l : list scalar)
  | Unexpected (v : yaml).

Fixpoint scalar_list (l : list yaml) : option (list scalar) :=
  match l with
  | [] => Some []
  | YStr s :: rest => cons (Str s) <$> scalar_list rest
  | YInt n :: rest => cons (Int n) <$> scalar_list rest
  | _ :: _ => None
  end.

(** A value of a configuration document seen as a tree object. *)
Definition node_of_yaml (v : yaml) : node :=
  match v with
  | YStr s => Scalar (Str s)
  | YInt n => Scalar (Int n)
  | YList l =>
      match scalar_list l with
      | Some sl => ListValue sl
      | None => Unexpected v
      end
  | _ => Unexpected v
  end.

(** ** configuration.py: [SigmaLogsourceConfiguration] *)

Record SigmaLogsourceConfiguration := {
  name : option string;
  indexfield : option string;
  category : option string;
  product : option string;
  service : option string;
  index : list string;
  conditions : option node;
}.

Definition MM_AND : string := "and".   (* Merge all conditions with AND *)
Definition MM_OR : string := "or".     (* Merge all conditions with OR *)

(** The first argument of the constructor: [None], a list of
    [SigmaLogsourceConfiguration] objects, or a value of the parsed
    configuration document. *)
Inductive logsource_arg :=
  | FromNone
  | FromList (l : list SigmaLogsourceConfiguration)
  | FromYaml (y : yaml).

(** [{ls.category for ls in logsource if ls.category != None}], and the same
    for the other two attributes *)
Definition attr_set (attr : SigmaLogsourceConfiguration → option string)
    (logsource : list SigmaLogsourceConfiguration) : gset string :=
  list_to_set (omap attr logsource).

(** [s.pop()] on a set of at most one element, [None] for [KeyError] *)
Definition set_pop (s : gset string) : option string := head (elements s).

(** [{index for ls in logsource for index in ls.index}] *)
Definition index_set (logsource : list SigmaLogsourceConfiguration) : gset string :=
  list_to_set (logsource ≫= index).

(** The default index that replaces an empty merged index list. *)
Definition use_defaultindex (defaultindex : yaml) : result (list string) :=
  match defaultindex with
  | YStr s => OK [s]
  | YList l =>
      match str_list l with
      | Some sl => OK sl
      | None => Err InvalidDefaultIndexType
      end
  | _ => Err InvalidDefaultIndexType
  end.

Definition is_none (v : yaml) : bool :=
  match v with YNull => true | _ => false end.

Definition str_eq (v : yaml) (s : string) : bool :=
  match v with YStr s' => String.eqb s' s | _ => false end.

(** Branch "list of SigmaLogsourceConfigurations: merge according to
    mergemethod" of [__init__]. *)
Definition merge_logsources (logsource : list SigmaLogsourceConfiguration)
    (defaultindex : yaml) (name : option string) (mergemethod : yaml)
    : result SigmaLogsourceConfiguration :=
  let categories := attr_set category logsource in
  let products := attr_set product logsource in
  let services := attr_set service logsource in
  if bool_decide (1 < size categories ∨ 1 < size products ∨ 1 < size services)
  then Err MergeConflict
  else
    let merged := elements (index_set logsource) in
    do idx <- (if bool_decide (merged = []) && negb (is_none defaultindex)
               then use_defaultindex defaultindex
               else OK merged);
    let indexfields : list string := omap indexfield logsource in
    do cond <- (if str_eq mergemethod MM_AND then OK ConditionAND
                else if str_eq mergemethod MM_OR then OK ConditionOR
                else Err InvalidMergeMethod);
    let added : list node := omap conditions logsource in
    OK {| name := name;
          indexfield := head indexfields;
          category := set_pop categories;
          product := set_pop products;
          service := set_pop services;
          index := idx;
          conditions := if bool_decide (0 < length added)
                        then Some (cond added) else None |}.

Definition str_attr (k : string) (d : dict) : option string :=
  match getitem k d with
  | Some (YStr s) => Some s
  | _ => None
  end.

Definition present_not_str (k : string) (d : dict) : bool :=
  match getitem k d with
  | Some v => negb (is_str v)
  | None => false
  end.

(** Branch "create logsource configuration from parsed yaml" of [__init__]. *)
Definition parse_logsource (logsource : dict) (name indexfield : option string)
    : result SigmaLogsourceConfiguration :=
  if present_not_str "category" logsource
     || present_not_str "product" logsource
     || present_not_str "service" logsource
  then Err (SigmaConfigParseError
              "Logsource category, product or service must be a string")
  else
    let category := str_attr "category" logsource in
    let product := str_attr "product" logsource in
    let service := str_attr "service" logsource in
    match category, product, service with
    | None, None, None =>
        Err (SigmaConfigParseError "Log source definition will not match")
    | _, _, _ =>
        do idx <- match getitem "index" logsource with
                  | Some (YStr s) => OK [s]
                  | Some (YList l) =>
                      match str_list l with
                      | Some sl => OK sl
                      | None => Err (SigmaConfigParseError
                                       "Logsource index patterns must be strings")
                      end
                  | Some _ => Err (SigmaConfigParseError
                                     "Logsource index must be string or list of strings")
                  | None => OK []
                  end;
        do cond <- match getitem "conditions" logsource with
                   | Some (YDict c) =>
                       OK (Some (ConditionAND
                                   (map (λ kv, MapItem kv.1 (node_of_yaml kv.2)) c)))
                   | Some _ => Err (SigmaConfigParseError
                                      "Logsource conditions must be a map")
                   | None => OK None
                   end;
        OK {| name := name; indexfield := indexfield;
              category := category; product := product; service := service;
              index := idx; conditions := cond |}
    end.

(** [SigmaLogsourceConfiguration.__init__] *)
Definition SigmaLogsourceConfiguration_init (logsource : logsource_arg)
    (defaultindex : yaml) (name : option string) (mergemethod : yaml)
    (indexfield : option string) : result SigmaLogsourceConfiguration :=
  match logsource with
  | FromNone | FromYaml YNull =>               (* create empty object *)
      OK {| name := name; indexfield := indexfield;
            category := None; product := None; service := None;
            index := []; conditions := None |}
  | FromList l => merge_logsources l defaultindex name mergemethod
  | FromYaml (YList []) =>                     (* [all] of nothing holds *)
      merge_logsources [] defaultindex name mergemethod
  | FromYaml (YDict d) => parse_logsource d name indexfield
  | FromYaml _ =>
      Err (SigmaConfigParseError "Logsource definitions must be maps")
  end.

(** The loop of [matches], with its early returns; the result is [True],
    [False] or, when the function falls off its end, [None]. *)
Fixpoint matches_loop (pairs : list (option string * option string))
    (searched : nat) : option bool :=
  match pairs with
  | [] => if bool_decide (searched ≠ 0) then Some true else None
  | (searchval, selfval) :: rest =>
      if bool_decide (searchval = None ∧ selfval ≠ None) then Some false
      else if bool_decide (selfval ≠ None) then
        if bool_decide (searchval ≠ selfval) then Some false
        else matches_loop rest (S searched)
      else matches_loop rest searched
  end.

Definition matches (self : SigmaLogsourceConfiguration)
    (category' product' service' : option string) : option bool :=
  matches_loop [(category', category self); (product', product self);
                (service', service self)] 0.

(** Truth value of the result of [matches] in a condition *)
Definition truthy (r : option bool) : bool := default false r.

(** [get_indexcond]: [self.indexfield] is true when it is a non-empty string *)
Definition get_indexcond (self : SigmaLogsourceConfiguration) : option node :=
  match indexfield self with
  | Some f =>
      if bool_decide (f ≠ EmptyString)
      then Some (ConditionOR (map (λ i, MapItem f (Scalar (Str i))) (index self)))
      else None
  | None => None
  end.

(** ** configuration.py: [SigmaConfiguration] *)

(** Modelled from the spec: [FieldMapping] of [sigma.config.mapping], which
    is not among the sources.  The specification gives it a source field and
    its targets; the targets are kept as the configuration document has
    them. *)
Record FieldMapping := {
  source : string;
  target : yaml;
}.

(** Modelled from the spec: what the configuration reads of an attached
    backend object, the index-field name ([index_field] of the base class,
    which is not among the sources). *)
Record Backend := {
  index_field : option string;
}.

(** [config] is [None] or the mapping loaded from the document;
    [defaultindex] is [YNull] for [None]. *)
Record SigmaConfiguration := {
  config : option dict;
  fieldmappings : list (string * FieldMapping);
  logsources : list SigmaLogsourceConfiguration;
  logsourcemerging : yaml;
  defaultindex : yaml;
  backend : option Backend;
}.

(** [SigmaConfiguration.__init__]; [configyaml] is [None] or [Some] of what
    [yaml.safe_load] made of the document.  Without a document [logsources]
    starts as an empty mapping, with one as an empty list; both are the
    empty list here. *)
Definition SigmaConfiguration_init (configyaml : option yaml)
    : result SigmaConfiguration :=
  match configyaml with
  | None =>
      OK {| config := None; fieldmappings := []; logsources := [];
            logsourcemerging := YStr MM_AND; defaultindex := YNull;
            backend := None |}
  | Some (YDict cfg) =>
      do fm <- match getitem "fieldmappings" cfg with
               | None => OK []
               | Some (YDict m) =>
                   OK (map (λ st, (st.1, {| source := st.1; target := st.2 |})) m)
               | Some _ => Err PyAttributeError
               end;
      OK {| config := Some cfg; fieldmappings := fm; logsources := [];
            logsourcemerging := default (YStr MM_AND) (getitem "logsourcemerging" cfg);
            defaultindex := default YNull (getitem "defaultindex" cfg);
            backend := None |}
  | Some _ => Err PyTypeError
  end.

Definition get_indexfield (self : SigmaConfiguration) : option string :=
  match backend self with
  | Some b => index_field b
  | None => None
  end.

(** [get_logsource]: the merge is called with the default merge method. *)
Definition get_logsource (self : SigmaConfiguration)
    (category' product' service' : option string)
    : result SigmaLogsourceConfiguration :=
  let matching :=
    List.filter (λ logsource, truthy (matches logsource category' product' service'))
                (logsources self) in
  SigmaLogsourceConfiguration_init (FromList matching) (defaultindex self)
    None (YStr MM_AND) None.

Definition with_backend (self : SigmaConfiguration) (b : option Backend)
    : SigmaConfiguration :=
  {| config := config self; fieldmappings := fieldmappings self;
     logsources := logsources self; logsourcemerging := logsourcemerging self;
     defaultindex := defaultindex self; backend := b |}.

(** [self.logsources.append(ls)] *)
Definition append_logsource (self : SigmaConfiguration)
    (ls : SigmaLogsourceConfiguration) : SigmaConfiguration :=
  {| config := config self; fieldmappings := fieldmappings self;
     logsources := logsources self ++ [ls];
     logsourcemerging := logsourcemerging self;
     defaultindex := defaultindex self; backend := backend self |}.

(** The [for name, logsource in logsources.items()] loop of [set_backend]:
    a definition that fails to load stops the loop with the definitions
    before it already appended. *)
Fixpoint set_backend_loop (items : dict) (self : SigmaConfiguration)
    : result unit * SigmaConfiguration :=
  match items with
  | [] => (OK (), self)
  | (name, logsource) :: rest =>
      match SigmaLogsourceConfiguration_init (FromYaml logsource)
              (defaultindex self) (Some name) (logsourcemerging self)
              (get_indexfield self) with
      | OK ls => set_backend_loop rest (append_logsource self ls)
      | Err e => (Err e, self)
      end
  end.

(** [set_backend] *)
Definition set_backend (self : SigmaConfiguration) (backend : option Backend)
    : result unit * SigmaConfiguration :=
  let self := with_backend self backend in
  match config self with
  | Some cfg =>
      match getitem "logsources" cfg with
      | Some (YDict logsources) => set_backend_loop logsources self
      | Some _ => (Err (SigmaConfigParseError "Logsources must be a map"), self)
      | None => (OK (), self)
      end
  | None => (OK (), self)
  end.

(** ** backends/qradar.py: [QRadarBackend] *)

(** *** Class attributes *)

Definition andToken : string := " and ".
Definition orToken : string := " or ".
Definition notToken : string := "not ".
Definition subExpression (s : string) : string := "(" +:+ s +:+ ")".           (* "(%s)" *)
Definition listExpression (s : string) : string := s.                          (* "%s" *)
Definition listSeparator : string := " ".
Definition valueExpression (s : string) : string := "'" +:+ s +:+ "'".         (* "'%s'" *)
Definition nullExpression (s : string) : string := s +:+ " is null".           (* "%s is null" *)
Definition notNullExpression (s : string) : string :=
  "not (" +:+ s +:+ " is null)".                                               (* "not (%s is null)" *)
Definition mapExpression (k v : string) : string := k +:+ "=" +:+ v.           (* "%s=%s" *)
Definition mapListsSpecialHandling : bool := true.
Definition aql_database : string := "events".

(** [reEscape]: the characters the compiled pattern matches, which is the
    double quote (code 34) alone.  [reClear] is [None]. *)
Definition reEscape (c : ascii) : bool := Ascii.eqb c "034"%char.

(** Modelled from the spec: [cleanValue] of the base class
    [SingleTextQueryBackend] ([backends/base.py] is not among the sources).
    The specification has every scalar "escaped for embedded quote
    characters" before it enters a literal: each character matched by
    [reEscape] gets a backslash (code 92) in front of it, and nothing is cleared
    since [reClear] is [None]. *)
Fixpoint cleanValue (val : string) : string :=
  match val with
  | EmptyString => EmptyString
  | String c rest =>
      if reEscape c then String "092" (String c (cleanValue rest))
      else String c (cleanValue rest)
  end.

(** [str(node)] for a [str] or an [int] *)
Definition py_str (v : scalar) : string :=
  match v with
  | Str s => s
  | Int n => Py.str_int n
  end.

Definition cleanKey (key : string) : string :=
  if Py.has_char " " key then String "034" (key +:+ String "034" EmptyString)
  else key.

Definition generateValueNode (node : scalar) (keypresent : bool) : string :=
  if negb keypresent
  then "UTF8(payload) ilike '" +:+ "%" +:+ cleanValue (py_str node) +:+ "%" +:+ "'"
  else valueExpression (cleanValue (py_str node)).

(** One turn of the loop of [generateMapItemListNode]: the clause appended
    to [itemslist] for [item]. *)
Definition list_item_clause (key : string) (item : scalar) : string :=
  match item with
  | Str s =>
      if Py.has_char "*" s
      then cleanKey key +:+ " ilike "
             +:+ generateValueNode (Str (Py.replace_char "*" "%" s)) true
      else cleanKey key +:+ " = " +:+ generateValueNode item true
  | Int _ => cleanKey key +:+ " = " +:+ generateValueNode item true
  end.

Definition generateMapItemListNode (key : string) (value : list scalar) : string :=
  let itemslist :=
    fold_left (λ itemslist item, itemslist ++ [list_item_clause key item]) value [] in
  "(" +:+ Py.join " or " itemslist +:+ ")".

(** [repr(v)] for a value of a configuration document: lists and mappings
    write the [repr] of their members between brackets and braces. *)
Fixpoint py_repr (v : yaml) : string :=
  match v with
  | YNull => "None"
  | YBool b => if b then "True" else "False"
  | YInt n => Py.str_int n
  | YStr s => Py.repr_str s
  | YList l => "[" +:+ Py.join ", " (map py_repr l) +:+ "]"
  | YDict d =>
      "{" +:+ Py.join ", "
                (map (λ kv, let '(k, v) := kv in
                            Py.repr_str k +:+ ": " +:+ py_repr v) d)
          +:+ "}"
  end.

(** [str(v)]: the text itself for a [str], [repr(v)] otherwise *)
Definition py_str_object (v : yaml) : string :=
  match v with
  | YStr s => s
  | _ => py_repr v
  end.

(** One turn of the loop of [generateMapItemListNode] for a member of any
    type: a [str] or an [int] gives the clause of [list_item_clause]; a
    member of another type is not a [str], so it gives the equality clause
    of its [str(item)]. *)
Definition list_member_clause (key : string) (item : yaml) : string :=
  match item with
  | YStr s => list_item_clause key (Str s)
  | YInt n => list_item_clause key (Int n)
  | _ => cleanKey key +:+ " = "
           +:+ valueExpression (cleanValue (py_str_object item))
  end.

(** [generateMapItemListNode] on a list that has a member which is neither
    [str] nor [int]: the same loop, over members of any type. *)
Definition generateMapItemListNode_objects (key : string) (value : list yaml)
    : string :=
  let itemslist :=
    fold_left (λ itemslist item, itemslist ++ [list_member_clause key item]) value [] in
  "(" +:+ Py.join " or " itemslist +:+ ")".

Definition generateNULLValueNode (item : string) : string := nullExpression item.
Definition generateNotNULLValueNode (item : string) : string := notNullExpression item.

(** *** Renderers inherited from the base class

    [backends/base.py], which defines [SingleTextQueryBackend], is not among
    the sources.  Each renderer takes the function to call back as
    [self.generateNode]. *)

(** Modelled from the spec: [generateANDNode] of the base class; the
    children are rendered and joined with the AND token. *)
Definition generateANDNode (generateNode : node → result string)
    (items : list node) : result string :=
  do rendered <- collect (map generateNode items);
  OK (Py.join andToken rendered).

(** Modelled from the spec: [generateORNode] of the base class; the
    children are rendered and joined with the OR token. *)
Definition generateORNode (generateNode : node → result string)
    (items : list node) : result string :=
  do rendered <- collect (map generateNode items);
  OK (Py.join orToken rendered).

(** Modelled from the spec: [generateNOTNode] of the base class; the NOT
    token is prefixed to the rendered child. *)
Definition generateNOTNode (generateNode : node → result string)
    (item : node) : result string :=
  do rendered <- generateNode item;
  OK (notToken +:+ rendered).

(** Modelled from the spec: [generateSubexpressionNode] of the base class;
    the rendered child goes into the grouping expression. *)
Definition generateSubexpressionNode (generateNode : node → result string)
    (items : node) : result string :=
  do rendered <- generateNode items;
  OK (subExpression rendered).

(** Modelled from the spec: [generateListNode] of the base class; a list
    outside a map item is rendered member by member as free-text terms,
    joined with the list separator. *)
Definition generateListNode (l : list scalar) : string :=
  listExpression (Py.join listSeparator (map (λ v, generateValueNode v false) l)).

(** *** The tree renderer *)

Definition is_str_int (value : node) : bool :=
  match value with Scalar _ => true | _ => false end.

Definition is_str_int_list (value : node) : bool :=
  match value with
  | Scalar _ | ListValue _ | Unexpected (YList _) => true
  | _ => false
  end.

Definition generateMapItemNode (generateNode : node → result string)
    (key : string) (value : node) : result string :=
  if negb mapListsSpecialHandling && is_str_int_list value
     || mapListsSpecialHandling && is_str_int value
  then
    match value with
    | Scalar (Str s) =>
        if Py.has_char "*" s
        then OK (cleanKey key +:+ " ilike "
                   +:+ generateValueNode (Str (Py.replace_char "*" "%" s)) true)
        else OK (mapExpression (cleanKey key) (generateValueNode (Str s) true))
    | Scalar v => OK (mapExpression (cleanKey key) (generateValueNode v true))
    | _ => do rendered <- generateNode value;
           OK (mapExpression (cleanKey key) rendered)
    end
  else
    match value with
    | ListValue l => OK (generateMapItemListNode key l)
    | Unexpected (YList l) => OK (generateMapItemListNode_objects key l)
    | _ => Err UnsupportedMapValueType
    end.

Fixpoint generateNode (node : node) : result string :=
  match node with
  | ConditionAND items => generateANDNode generateNode items
  | ConditionOR items => generateORNode generateNode items
  | ConditionNOT item => generateNOTNode generateNode item
  | ConditionNULLValue item => OK (generateNULLValueNode item)
  | ConditionNotNULLValue item => OK (generateNotNULLValueNode item)
  | NodeSubexpression items => generateSubexpressionNode generateNode items
  | MapItem key value => generateMapItemNode generateNode key value
  | Scalar v => OK (generateValueNode v false)
  | ListValue l => OK (generateListNode l)
  | Unexpected _ => Err UnsupportedNodeKind
  end.

(** *** Aggregation and query assembly *)

Inductive aggfunc_id :=
  | AGGFUNC_COUNT
  | AGGFUNC_MIN
  | AGGFUNC_MAX
  | AGGFUNC_AVG
  | AGGFUNC_SUM
  | AGGFUNC_NEAR.

(** Modelled from the spec: the aggregation descriptor
    [SigmaAggregationParser] of [sigma.parser.condition], which is not among
    the sources: function, field, optional group field, comparison operator
    and numeric threshold.  The renderer reads the function's name from a
    further attribute, [aggfunc_notrans], the name as the rule spells it. *)
Record SigmaAggregationParser := {
  aggfunc : aggfunc_id;
  aggfunc_notrans : string;
  aggfield : string;
  groupfield : option string;
  cond_op : string;
  condition : Z;
}.

(** Modelled from the spec: one parsed condition of a rule (class
    [SigmaConditionParser], not among the sources), with the two attributes
    the backend reads. *)
Record ParsedCondition := {
  parsedSearch : node;
  parsedAgg : option SigmaAggregationParser;
}.

(** Modelled from the spec: what the backend reads of the rule parser
    object (class [SigmaParser], not among the sources): the parsed
    conditions and the outcome of [sigmaparser.get_logsource()], the rule's
    log source resolved against the configuration ([None] when the rule
    names none). *)
Record SigmaParser := {
  condparsed : list ParsedCondition;
  rule_logsource : result (option SigmaLogsourceConfiguration);
}.

(** The instance attributes the backend assigns while it translates; each
    is [None] until its first assignment. *)
Record QRadarBackend := {
  parsedlogsource : option (list string);
  qradarPrefixAgg : option string;
  qradarSuffixAgg : option string;
}.

(** What [generateAggregation] returns: the empty string, or the pair of
    prefix and suffix. *)
Inductive agg_fragments :=
  | NoFragments
  | Fragments (prefix suffix : string).

Definition generateAggregation (self : QRadarBackend)
    (agg : option SigmaAggregationParser) : result agg_fragments * QRadarBackend :=
  match agg with
  | None => (OK NoFragments, self)
  | Some agg =>
      match aggfunc agg with
      | AGGFUNC_NEAR => (Err UnsupportedAggregation, self)
      | _ =>
          let '(prefix, suffix) :=
            match groupfield agg with
            | None =>
                ("SELECT " +:+ aggfunc_notrans agg +:+ "(" +:+ aggfield agg
                   +:+ ") as agg_val from " +:+ aql_database +:+ " where",
                 " group by " +:+ aggfield agg +:+ " having agg_val "
                   +:+ cond_op agg +:+ " " +:+ Py.str_int (condition agg))
            | Some group =>
                (" SELECT " +:+ aggfunc_notrans agg +:+ "(" +:+ aggfield agg
                   +:+ ") as agg_val from " +:+ aql_database +:+ " where ",
                 " group by " +:+ group +:+ " having agg_val "
                   +:+ cond_op agg +:+ " " +:+ Py.str_int (condition agg))
            end in
          (OK (Fragments prefix suffix),
           {| parsedlogsource := parsedlogsource self;
              qradarPrefixAgg := Some prefix;
              qradarSuffixAgg := Some suffix |})
      end
  end.

Definition generateQuery (self : QRadarBackend) (parsed : ParsedCondition)
    (sigmaparser : SigmaParser) : result string * QRadarBackend :=
  match generateNode (parsedSearch parsed) with
  | Err e => (Err e, self)
  | OK result =>
      match rule_logsource sigmaparser with
      | Err e => (Err e, self)
      | OK None => (Err PyAttributeError, self)
      | OK (Some logsource) =>
          let self := {| parsedlogsource := Some (index logsource);
                         qradarPrefixAgg := qradarPrefixAgg self;
                         qradarSuffixAgg := qradarSuffixAgg self |} in
          let aql_database :=
            if existsb (Py.contains "flow") (index logsource)
            then "flows" else "events" in
          let qradarPrefix :=
            "SELECT UTF8(payload) as search_payload from " +:+ aql_database
              +:+ " where " in
          match parsedAgg parsed with
          | Some agg =>
              match generateAggregation self (Some agg) with
              | (OK (Fragments qradarPrefix qradarSuffixAgg), self) =>
                  (OK ((qradarPrefix +:+ result) +:+ qradarSuffixAgg), self)
              | (OK NoFragments, self) => (Err PyValueError, self)
              | (Err e, self) => (Err e, self)
              end
          | None => (OK (qradarPrefix +:+ result), self)
          end
      end
  end.

Section Generate.

(** [generateBefore] and [generateAfter] are inherited from the base
    class, which is not among the sources; each gives a string or
    [None]. *)
Variables generateBefore generateAfter : ParsedCondition → option string.

(** [generate]: the body of the loop over [condparsed] ends in [return],
    so the loop stops in its first turn; with no parsed condition the
    function falls off its end and returns [None]. *)
Definition generate (self : QRadarBackend) (sigmaparser : SigmaParser)
    : result (option string) * QRadarBackend :=
  match condparsed sigmaparser with
  | [] => (OK None, self)
  | parsed :: _ =>
      match generateQuery self parsed sigmaparser with
      | (Err e, self) => (Err e, self)
      | (OK query, self) =>
          let before := generateBefore parsed in
          let after := generateAfter parsed in
          let result := EmptyString in
          let result := match before with Some b => b | None => result end in
          let result := result +:+ query in
          let result := match after with Some a => result +:+ a | None => result end in
          (OK (Some result), self)
      end
  end.

End Generate.

(** ** Statements of the specification, in its own words *)

Module Py_strip.

(** [s.strip(" ")], used to compare fragments up to the blanks around them *)
Fixpoint lstrip (s : string) : string :=
  match s with
  | String c rest => if Ascii.eqb c " " then lstrip rest else s
  | EmptyString => EmptyString
  end.

Fixpoint rstrip (s : string) : string :=
  match s with
  | EmptyString => EmptyString
  | String c rest =>
      match rstrip rest with
      | EmptyString => if Ascii.eqb c " " then EmptyString else String c EmptyString
      | rest' => String c rest'
      end
  end.

Definition strip (s : string) : string := rstrip (lstrip s).

End Py_strip.

(** The data source the specification asks for: the flow source when some
    resolved index pattern contains "flow", the event source otherwise. *)
Definition spec_data_source (indices : list string) : string :=
  if existsb (Py.contains "flow") indices then "flows" else "events".

(** The clause the specification asks for one member of a list value: a
    pattern match, with the wildcard marker [*] turned into [%], when the
    member's text contains the marker, and an equality otherwise. *)
Definition spec_list_clause (key : string) (item : scalar) : string :=
  let text := py_str item in
  if Py.has_char "*" text
  then cleanKey key +:+ " ilike "
         +:+ valueExpression (cleanValue (Py.replace_char "*" "%" text))
  else cleanKey key +:+ " = " +:+ valueExpression (cleanValue text).

(** Whether [body], the text between the delimiters of a literal, holds a
    [delim] that no backslash escapes; [escaped] tells that the character
    before was an escaping backslash. *)
Fixpoint unescaped_delimiter (delim : ascii) (escaped : bool) (body : string) : bool :=
  match body with
  | EmptyString => false
  | String c rest =>
      if escaped then unescaped_delimiter delim false rest
      else if Ascii.eqb c "092" then unescaped_delimiter delim true rest
      else Ascii.eqb c delim || unescaped_delimiter delim false rest
  end.

(** The merge gets past its checks of category, product and service (each
    has at most one value among the definitions) and of the merge method. *)
Definition mergeable (logsource : list SigmaLogsourceConfiguration)
    (mergemethod : yaml) : Prop :=
  size (attr_set category logsource) ≤ 1
  ∧ size (attr_set product logsource) ≤ 1
  ∧ size (attr_set service logsource) ≤ 1
  ∧ (mergemethod = YStr MM_AND ∨ mergemethod = YStr MM_OR).


(** ** Sample rules and configurations *)

Definition fresh_backend : QRadarBackend :=
  {| parsedlogsource := None; qradarPrefixAgg := None; qradarSuffixAgg := None |}.

(** [count(EventID) by User > 5], the function spelled in capitals *)
Definition count_by_user : SigmaAggregationParser :=
  {| aggfunc := AGGFUNC_COUNT; aggfunc_notrans := "COUNT"; aggfield := "EventID";
     groupfield := Some "User"; cond_op := ">"; condition := 5 |}.

Definition count_ungrouped : SigmaAggregationParser :=
  {| aggfunc := AGGFUNC_COUNT; aggfunc_notrans := "COUNT"; aggfield := "EventID";
     groupfield := None; cond_op := ">"; condition := 5 |}.

(** [{"EventID": 4624, "LogonType": ["2", "10"]}], AND-combined *)
Definition logon_search : node :=
  ConditionAND [MapItem "EventID" (Scalar (Int 4624));
                MapItem "LogonType" (ListValue [Str "2"; Str "10"])].

Definition logon_predicate : string :=
  "EventID='4624' and (LogonType = '2' or LogonType = '10')".

Definition definition_of (category' : option string) (indices : list string)
    : SigmaLogsourceConfiguration :=
  {| name := None; indexfield := None; category := category';
     product := None; service := None; index := indices; conditions := None |}.

Definition auth_logsource : SigmaLogsourceConfiguration :=
  definition_of (Some "authentication") ["auth-idx"].

Definition netflow_logsource : SigmaLogsourceConfiguration :=
  definition_of (Some "network") ["netflow-idx"].

Definition rule_on (ls : SigmaLogsourceConfiguration) (conds : list ParsedCondition)
    : SigmaParser :=
  {| condparsed := conds; rule_logsource := OK (Some ls) |}.


Definition qradar_backend_object : Backend := {| index_field := None |}.

(** ** Auxiliary notions for the properties of the resolver *)

(** The definitions [get_logsource] merges: those of the configuration that
    match the query, in the order of the list. *)
Definition matching_logsources (self : SigmaConfiguration)
    (category' product' service' : option string)
    : list SigmaLogsourceConfiguration :=
  List.filter (λ logsource, truthy (matches logsource category' product' service'))
              (logsources self).

(** The definitions the loop of [set_backend] builds from the items of the
    [logsources] section, up to the first item that fails to load, with the
    outcome of the loop. *)
Fixpoint built_definitions (items : dict) (defaultindex : yaml)
    (mergemethod : yaml) (indexfield : option string)
    : result unit * list SigmaLogsourceConfiguration :=
  match items with
  | [] => (OK (), [])
  | (name, logsource) :: rest =>
      match SigmaLogsourceConfiguration_init (FromYaml logsource) defaultindex
              (Some name) mergemethod indexfield with
      | OK ls =>
          let '(r, more) := built_definitions rest defaultindex mergemethod indexfield in
          (r, ls :: more)
      | Err e => (Err e, [])
      end
  end.

(** The values of a map item that are neither [str], [int] nor [list]:
    the objects of the condition classes, tuples, and [None], booleans and
    mappings. *)
Definition neither_scalar_nor_list (value : node) : bool :=
  match value with
  | Scalar _ | ListValue _ => false
  | Unexpected (YStr _ | YInt _ | YList _) => false
  | _ => true
  end.

(** [sub] occurs in [s]: the meaning of Python's [sub in s]. *)
Definition occurs_in (sub s : string) : Prop :=
  ∃ before after, s = before +:+ sub +:+ after.

(** A configuration document with two log sources for one product, a
    default index and the OR merge method, and the configuration it gives
    once a backend is attached. *)
Definition sysmon_document : yaml :=
  YDict [("logsourcemerging", YStr "or");
         ("defaultindex", YStr "main");
         ("logsources",
          YDict [("windows", YDict [("product", YStr "windows");
                                    ("index", YStr "wineventlog")]);
                 ("sysmon", YDict [("product", YStr "windows");
                                   ("service", YStr "sysmon");
                                   ("index", YList [YStr "sysmon-idx"]);
                                   ("conditions",
                                    YDict [("Channel", YStr "Sysmon")])])])].

Definition sysmon_definitions : list SigmaLogsourceConfiguration :=
  [ {| name := Some "windows"; indexfield := None; category := None;
       product := Some "windows"; service := None; index := ["wineventlog"];
       conditions := None |};
    {| name := Some "sysmon"; indexfield := None; category := None;
       product := Some "windows"; service := Some "sysmon";
       index := ["sysmon-idx"];
       conditions := Some (ConditionAND [MapItem "Channel" (Scalar (Str "Sysmon"))]) |} ].

Definition sysmon_configuration : SigmaConfiguration :=
  {| config := match sysmon_document with YDict cfg => Some cfg | _ => None end;
     fieldmappings := []; logsources := sysmon_definitions;
     logsourcemerging := YStr "or"; defaultindex := YStr "main";
     backend := Some qradar_backend_object |}.

(** ** Proof automation *)


(** ** Python strings: concatenation *)

Lemma append_nil_r (s : string) : s +:+ EmptyString = s.
Proof.
  induction s as [|c s IH]; [done|].
  change (String c (s +:+ EmptyString) = String c s). by rewrite IH.
Qed.

Lemma append_assoc (s1 s2 s3 : string) : (s1 +:+ s2) +:+ s3 = s1 +:+ (s2 +:+ s3).
Proof.
  induction s1 as [|c s1 IH]; [done|].
  change (String c ((s1 +:+ s2) +:+ s3) = String c (s1 +:+ (s2 +:+ s3))).
  by rewrite IH.
Qed.

(** ** Properties of the aggregation renderer and the query assembler *)

(** The renderer leaves the backend untouched whenever it does not return
    fragments. *)
Lemma generateAggregation_no_fragments_frame self agg frags self' :
  generateAggregation self agg = (frags, self') →
  (∀ p s, frags ≠ OK (Fragments p s)) → self' = self.
Proof.
  unfold generateAggregation. destruct agg as [agg|]; [|by intros [= <- <-]].
  destruct (aggfunc agg), (groupfield agg); intros [= <- <-] Hno;
    try done; by edestruct Hno.
Qed.

(** With an aggregation that renders, the assembled query is the prefix,
    then the rendered predicate, then the suffix. *)
Lemma generateQuery_with_aggregation self parsed sigmaparser agg ls pred p s self' :
  parsedAgg parsed = Some agg →
  generateNode (parsedSearch parsed) = OK pred →
  rule_logsource sigmaparser = OK (Some ls) →
  generateAggregation
    {| parsedlogsource := Some (index ls);
       qradarPrefixAgg := qradarPrefixAgg self;
       qradarSuffixAgg := qradarSuffixAgg self |} (Some agg)
    = (OK (Fragments p s), self') →
  generateQuery self parsed sigmaparser = (OK ((p +:+ pred) +:+ s), self').
Proof.
  intros Hagg Hpred Hls Hgen. unfold generateQuery.
  by rewrite Hpred, Hls, Hagg, Hgen.
Qed.

(** Without an aggregation the query selects the payload from the data
    source that the resolved index patterns choose. *)
Lemma generateQuery_without_aggregation self parsed sigmaparser ls pred :
  parsedAgg parsed = None →
  generateNode (parsedSearch parsed) = OK pred →
  rule_logsource sigmaparser = OK (Some ls) →
  (generateQuery self parsed sigmaparser).1
  = OK ("SELECT UTF8(payload) as search_payload from "
          +:+ spec_data_source (index ls) +:+ " where " +:+ pred).
Proof.
  intros Hagg Hpred Hls. unfold generateQuery, spec_data_source.
  rewrite Hpred, Hls, Hagg. simpl. f_equal.
  by destruct (existsb _ _).
Qed.

(** The sample predicate renders as the specification's end-to-end example
    has it. *)
Lemma logon_search_rendered : generateNode logon_search = OK logon_predicate.
Proof. by vm_compute. Qed.

(** C1, as stated, fails: for [count(EventID) by User > 5] the renderer
    returns neither the claimed prefix nor the claimed suffix; both come
    with blanks around them. *)
Lemma generateAggregation_fragments_not_verbatim :
  ∃ p s,
    (generateAggregation fresh_backend (Some count_by_user)).1 = OK (Fragments p s)
    ∧ p ≠ "SELECT COUNT(EventID) as agg_val from events where"
    ∧ s ≠ "group by User having agg_val > 5".
Proof. do 2 eexists. split; [by vm_compute|]. by split. Qed.

(** C1, amended: for an aggregation with function COUNT (spelled so in the
    rule), field EventID, group field User, operator > and threshold 5, the
    renderer returns the prefix
    [ SELECT COUNT(EventID) as agg_val from events where ], a blank before
    and after, and the suffix [ group by User having agg_val > 5], a blank
    before; the assembled query is the prefix, then the rendered predicate,
    then the suffix.  Without a group field the prefix is the same text up
    to the blanks around it and the suffix groups by the aggregation
    field. *)
Theorem generateAggregation_count_fragments self agg :
  aggfunc agg = AGGFUNC_COUNT →
  aggfunc_notrans agg = "COUNT" →
  aggfield agg = "EventID" →
  cond_op agg = ">" →
  condition agg = 5%Z →
  (groupfield agg = Some "User" →
     (generateAggregation self (Some agg)).1
     = OK (Fragments " SELECT COUNT(EventID) as agg_val from events where "
                     " group by User having agg_val > 5")
     ∧ ∀ parsed sigmaparser ls pred,
         parsedAgg parsed = Some agg →
         generateNode (parsedSearch parsed) = OK pred →
         rule_logsource sigmaparser = OK (Some ls) →
         (generateQuery self parsed sigmaparser).1
         = OK ((" SELECT COUNT(EventID) as agg_val from events where " +:+ pred)
                 +:+ " group by User having agg_val > 5"))
  ∧ (groupfield agg = None →
     ∃ p s,
       (generateAggregation self (Some agg)).1 = OK (Fragments p s)
       ∧ Py_strip.strip p = "SELECT COUNT(EventID) as agg_val from events where"
       ∧ Py_strip.strip p
         = Py_strip.strip " SELECT COUNT(EventID) as agg_val from events where "
       ∧ s = " group by EventID having agg_val > 5").
Proof.
  destruct agg as [fn nt fld grp op thr]; simpl.
  intros -> -> -> -> ->. split; intros ->.
  - split; [by vm_compute|].
    intros parsed sigmaparser ls pred Hagg Hpred Hls.
    by erewrite generateQuery_with_aggregation.
  - do 2 eexists. split; [by vm_compute|]. by vm_compute.
Qed.

(** The amended C1 at the rule of the specification's end-to-end example. *)
Lemma generateAggregation_count_fragments_witness :
  (generateAggregation fresh_backend (Some count_by_user)).1
  = OK (Fragments " SELECT COUNT(EventID) as agg_val from events where "
                  " group by User having agg_val > 5")
  ∧ (generateQuery fresh_backend
       {| parsedSearch := logon_search; parsedAgg := Some count_by_user |}
       (rule_on auth_logsource [])).1
    = OK ((" SELECT COUNT(EventID) as agg_val from events where " +:+ logon_predicate)
            +:+ " group by User having agg_val > 5").
Proof.
  destruct (generateAggregation_count_fragments fresh_backend count_by_user
              eq_refl eq_refl eq_refl eq_refl eq_refl) as [Hgroup _].
  destruct (Hgroup eq_refl) as [Hfrag Hquery]. split; [exact Hfrag|].
  apply (Hquery _ _ auth_logsource); [reflexivity|by vm_compute|reflexivity].
Defined.

(** On the aggregation path the data source never follows the index
    patterns: the prefix is built from the class attribute. *)
Lemma generateAggregation_source_is_events self agg p s :
  (generateAggregation self (Some agg)).1 = OK (Fragments p s) →
  p = "SELECT " +:+ aggfunc_notrans agg +:+ "(" +:+ aggfield agg
        +:+ ") as agg_val from events where"
  ∨ p = " SELECT " +:+ aggfunc_notrans agg +:+ "(" +:+ aggfield agg
          +:+ ") as agg_val from events where ".
Proof.
  unfold generateAggregation.
  destruct (aggfunc agg), (groupfield agg); simpl; intros [= <- _]; auto.
Qed.

(** C2: for a rule resolved to the index pattern [netflow-idx] the
    specification's data source is [flows]; the query without aggregation
    reads from it, the query with an aggregation reads from [events]. *)
Theorem generateQuery_aggregation_reads_events :
  spec_data_source (index netflow_logsource) = "flows"
  ∧ (generateQuery fresh_backend
       {| parsedSearch := logon_search; parsedAgg := None |}
       (rule_on netflow_logsource [])).1
    = OK ("SELECT UTF8(payload) as search_payload from flows where "
            +:+ logon_predicate)
  ∧ (generateQuery fresh_backend
       {| parsedSearch := logon_search; parsedAgg := Some count_by_user |}
       (rule_on netflow_logsource [])).1
    = OK ((" SELECT COUNT(EventID) as agg_val from events where "
             +:+ logon_predicate) +:+ " group by User having agg_val > 5").
Proof. by vm_compute. Qed.

(** ** Properties of value quoting *)

(** A value without a double quote goes into its literal unchanged. *)
Lemma cleanValue_without_double_quote val :
  Py.has_char "034" val = false → cleanValue val = val.
Proof.
  induction val as [|c rest IH]; simpl; [done|].
  unfold reEscape. destruct (Ascii.eqb c "034"); simpl; [done|].
  intros Hrest. by rewrite IH.
Qed.

(** C7: the literal is delimited by single quotes and only double quotes are
    escaped; the value [it's] is rendered as ['it's'], with a bare
    delimiter inside the literal, and so is the map item holding it. *)
Theorem generateValueNode_single_quote_unescaped :
  generateValueNode (Str "it's") true = valueExpression "it's"
  ∧ unescaped_delimiter "'" false "it's" = true
  ∧ generateNode (MapItem "User" (Scalar (Str "it's"))) = OK "User='it's'".
Proof. by vm_compute. Qed.

(** ** Properties of the aggregation renderer: unsupported and absent *)

(** C8: an aggregation whose function is NEAR raises
    [UnsupportedAggregation] whatever its other fields are, and stores
    nothing; with no aggregation the renderer raises nothing, returns no
    prefix and suffix, and stores nothing. *)
Theorem generateAggregation_near_unsupported
    self (notrans field : string) (group : option string) (op : string) (threshold : Z) :
  generateAggregation self
    (Some {| aggfunc := AGGFUNC_NEAR; aggfunc_notrans := notrans;
             aggfield := field; groupfield := group; cond_op := op;
             condition := threshold |})
  = (Err UnsupportedAggregation, self)
  ∧ generateAggregation self None = (OK NoFragments, self).
Proof. done. Qed.

(** The failure reaches the caller of the query assembler: a rule whose
    predicate renders and whose log source resolves still fails when its
    aggregation is NEAR. *)
Lemma generateQuery_near_unsupported self parsed sigmaparser agg pred ls :
  parsedAgg parsed = Some agg →
  aggfunc agg = AGGFUNC_NEAR →
  generateNode (parsedSearch parsed) = OK pred →
  rule_logsource sigmaparser = OK (Some ls) →
  (generateQuery self parsed sigmaparser).1 = Err UnsupportedAggregation.
Proof.
  intros Hagg Hnear Hpred Hls. unfold generateQuery, generateAggregation.
  by rewrite Hpred, Hls, Hagg, Hnear.
Qed.

(** ** Properties of [generate] *)

(** C10: for a rule with more than one parsed condition, [generate] returns
    what it returns for the first one alone: the query of the first parsed
    condition between the backend's before and after texts.  The other
    parsed conditions are not rendered, so neither their text nor an error
    of theirs reaches the result or the backend. *)
Theorem generate_first_condition_only
    (generateBefore generateAfter : ParsedCondition → option string)
    self first second others logsource :
  generate generateBefore generateAfter self
    {| condparsed := first :: second :: others; rule_logsource := logsource |}
  = generate generateBefore generateAfter self
      {| condparsed := [first]; rule_logsource := logsource |}
  ∧ (generate generateBefore generateAfter self
       {| condparsed := first :: second :: others; rule_logsource := logsource |}).1
    = (do query <- (generateQuery self first
                      {| condparsed := [first]; rule_logsource := logsource |}).1;
       OK (Some ((default EmptyString (generateBefore first) +:+ query)
                   +:+ default EmptyString (generateAfter first)))).
Proof.
  split; [done|]. unfold generate; simpl.
  change (generateQuery self first
            {| condparsed := first :: second :: others; rule_logsource := logsource |})
    with (generateQuery self first
            {| condparsed := [first]; rule_logsource := logsource |}).
  destruct (generateQuery _ _ _) as [[query|e] self']; simpl; [|done].
  destruct (generateBefore first), (generateAfter first); simpl; try done.
  - by rewrite append_nil_r.
  - by rewrite append_nil_r.
Qed.

(** ** Properties of list values in map items *)

(** The decimal text of an integer holds no wildcard marker. *)
Lemma pretty_N_go_no_wildcard (x : N) (s : string) :
  Py.has_char "*" (pretty_N_go x s) = Py.has_char "*" s.
Proof.
  revert s. induction (N.lt_wf_0 x) as [x _ IH]; intros s.
  destruct (decide (x = 0%N)) as [->|Hx]; [by rewrite pretty_N_go_0|].
  rewrite pretty_N_go_step by lia.
  rewrite IH by (apply N.div_lt; lia). simpl.
  replace (Ascii.eqb (pretty_N_char (x `mod` 10)) "*") with false; [done|].
  unfold pretty_N_char. by repeat case_match.
Qed.

Lemma str_int_no_wildcard (n : Z) : Py.has_char "*" (Py.str_int n) = false.
Proof.
  unfold Py.str_int, pretty, pretty_Z.
  destruct n as [|p|p]; [done| |].
  - unfold pretty, pretty_positive, pretty, pretty_N.
    destruct (decide (N.pos p = 0%N)) as [|_]; [done|].
    by rewrite pretty_N_go_no_wildcard.
  - change (Py.has_char "*" (String "-" (pretty p)) = false).
    unfold pretty, pretty_positive, pretty, pretty_N. simpl.
    destruct (decide (N.pos p = 0%N)) as [|_]; [done|].
    by rewrite pretty_N_go_no_wildcard.
Qed.

(** The clause the loop appends is the clause the specification asks for. *)
Lemma list_item_clause_spec key item :
  list_item_clause key item = spec_list_clause key item.
Proof.
  unfold list_item_clause, spec_list_clause.
  destruct item as [s|n]; simpl.
  - by destruct (Py.has_char "*" s).
  - by rewrite str_int_no_wildcard.
Qed.

(** A loop that appends one element per turn builds the mapped list. *)
Lemma append_loop_map {A B} (f : A → B) (l : list A) (acc : list B) :
  fold_left (λ acc x, acc ++ [f x]) l acc = acc ++ map f l.
Proof.
  revert acc. induction l as [|x l IH]; intros acc; simpl.
  - by rewrite app_nil_r.
  - by rewrite IH, <- app_assoc.
Qed.

(** C6: a map item whose value is a list of scalars renders as the
    parenthesized join, with the OR token, of one clause per member of the
    list, in order; the clause of a member is a pattern match with [*]
    turned into [%] when the member holds the wildcard marker and an
    equality of key and value otherwise. *)
Theorem generateMapItemListNode_disjunction key (value : list scalar) :
  generateMapItemListNode key value
  = "(" +:+ Py.join orToken (map (spec_list_clause key) value) +:+ ")"
  ∧ length (map (spec_list_clause key) value) = length value
  ∧ generateNode (MapItem key (ListValue value))
    = OK ("(" +:+ Py.join orToken (map (spec_list_clause key) value) +:+ ")").
Proof.
  assert (generateMapItemListNode key value
          = "(" +:+ Py.join orToken (map (spec_list_clause key) value) +:+ ")") as Heq.
  { unfold generateMapItemListNode. rewrite append_loop_map. simpl.
    do 3 f_equal. apply map_ext. intros item. apply list_item_clause_spec. }
  split; [done|]. split; [apply length_map|].
  simpl. unfold generateMapItemNode. simpl. by rewrite Heq.
Qed.

(** ** Properties of log-source matching *)

(** One turn of the loop of [matches]. *)
Lemma matches_loop_cons searchval selfval rest searched :
  matches_loop ((searchval, selfval) :: rest) searched
  = match selfval with
    | None => matches_loop rest searched
    | Some v =>
        if decide (searchval = Some v) then matches_loop rest (S searched)
        else Some false
    end.
Proof.
  simpl. destruct selfval as [v|].
  - rewrite (bool_decide_eq_true_2 (Some v ≠ None)) by done.
    destruct (decide (searchval = Some v)) as [->|Hne].
    + rewrite bool_decide_eq_false_2 by (by intros [? _]).
      by rewrite bool_decide_eq_false_2 by (by intros ?).
    + rewrite (bool_decide_eq_true_2 (searchval ≠ Some v)) by done.
      by destruct (bool_decide _).
  - rewrite bool_decide_eq_false_2 by (by intros [_ ?]).
    by rewrite bool_decide_eq_false_2 by (by intros ?).
Qed.

(** The loop answers [True] exactly when every pair with a specified
    attribute agrees and some attribute was counted, before or in the loop. *)
Lemma matches_loop_true pairs searched :
  truthy (matches_loop pairs searched) = true
  ↔ Forall (λ qd, ∀ v, qd.2 = Some v → qd.1 = Some v) pairs
    ∧ (searched ≠ 0 ∨ Exists (λ qd, qd.2 ≠ None) pairs).
Proof.
  revert searched. induction pairs as [|[q d] pairs IH]; intros searched.
  - simpl. case_bool_decide; simpl.
    + split; [intros _; split; [constructor|by left]|done].
    + split; [done|]. intros [_ [?|Hex]]; [done|]. by apply Exists_nil in Hex.
  - rewrite matches_loop_cons, Forall_cons, Exists_cons. simpl.
    destruct d as [v|].
    + destruct (decide (q = Some v)) as [->|Hne].
      * rewrite IH. split.
        -- intros [Hall _]. split; [split; [by intros ? [= <-]|done]|].
           right. by left.
        -- intros [[_ Hall] _]. split; [done|]. left. lia.
      * simpl. split; [done|]. intros [[Hq _] _]. by specialize (Hq v eq_refl).
    + rewrite IH. split.
      * intros [Hall Hsome]. split; [split; [done|done]|].
        destruct Hsome as [?|?]; [by left|right; by right].
      * intros [[_ Hall] Hsome]. split; [done|].
        destruct Hsome as [?|[?|?]]; [by left|done|by right].
Qed.

(** C5: a definition matches a query exactly when every attribute it
    specifies equals the query's attribute and it specifies at least one;
    a definition that specifies none does not match (the function returns
    [None]). *)
Theorem matches_exactly self (category' product' service' : option string) :
  (truthy (matches self category' product' service') = true
   ↔ ((∀ v, category self = Some v → category' = Some v)
      ∧ (∀ v, product self = Some v → product' = Some v)
      ∧ (∀ v, service self = Some v → service' = Some v))
     ∧ ¬ (category self = None ∧ product self = None ∧ service self = None))
  ∧ (category self = None ∧ product self = None ∧ service self = None
     → matches self category' product' service' = None).
Proof.
  split.
  - unfold matches. rewrite matches_loop_true.
    rewrite !Forall_cons, !Exists_cons, Forall_nil, Exists_nil. simpl.
    split.
    + intros [(Hc & Hp & Hs & _) [?|Hsome]]; [done|]. split; [done|].
      intros (Hc' & Hp' & Hs'). destruct Hsome as [?|[?|[?|[]]]]; done.
    + intros [(Hc & Hp & Hs) Hsome]. split; [done|]. right.
      destruct (category self); [by left|]. destruct (product self); [right; by left|].
      destruct (service self); [right; right; by left|]. by destruct Hsome.
  - intros (Hc & Hp & Hs). unfold matches.
    rewrite !matches_loop_cons, Hc, Hp, Hs. done.
Qed.

(** ** Properties of the merge of log-source definitions *)

Lemma elem_of_attr_set attr logsource (x : string) :
  x ∈ attr_set attr logsource ↔ ∃ ls, ls ∈ logsource ∧ attr ls = Some x.
Proof. unfold attr_set. by rewrite elem_of_list_to_set, list_elem_of_omap. Qed.

Lemma elem_of_index_set logsource (i : string) :
  i ∈ index_set logsource ↔ ∃ ls, ls ∈ logsource ∧ i ∈ index ls.
Proof.
  unfold index_set. rewrite elem_of_list_to_set, list_elem_of_bind.
  split; intros (ls & ? & ?); by exists ls.
Qed.

(** Two distinct members make a set of more than one element. *)
Lemma size_two_members (X : gset string) x y :
  x ≠ y → x ∈ X → y ∈ X → 1 < size X.
Proof.
  intros Hne Hx Hy.
  assert (size ({[x]} ∪ {[y]} : gset string) = 2) as Htwo.
  { rewrite size_union by (by apply disjoint_singleton_l; rewrite elem_of_singleton).
    by rewrite !size_singleton. }
  assert (({[x]} ∪ {[y]} : gset string) ⊆ X) as Hsub.
  { intros z [->%elem_of_singleton | ->%elem_of_singleton]%elem_of_union; done. }
  apply subseteq_size in Hsub. lia.
Qed.

Lemma set_pop_empty : set_pop ∅ = None.
Proof. unfold set_pop. by rewrite elements_empty. Qed.

(** The sets of the merge do not depend on the order of the definitions. *)
Lemma attr_set_perm attr l l' : l ≡ₚ l' → attr_set attr l = attr_set attr l'.
Proof.
  intros Hperm. apply set_eq. intros x. rewrite !elem_of_attr_set.
  split; intros (ls & Hin & ?); exists ls; split; try done.
  - by rewrite <- Hperm.
  - by rewrite Hperm.
Qed.

Lemma index_set_perm l l' : l ≡ₚ l' → index_set l = index_set l'.
Proof.
  intros Hperm. apply set_eq. intros x. rewrite !elem_of_index_set.
  split; intros (ls & Hin & ?); exists ls; split; try done.
  - by rewrite <- Hperm.
  - by rewrite Hperm.
Qed.

(** What a merge that succeeds returns. *)
Lemma merge_logsources_OK logsource defaultindex name' mergemethod m :
  merge_logsources logsource defaultindex name' mergemethod = OK m →
  category m = set_pop (attr_set category logsource)
  ∧ product m = set_pop (attr_set product logsource)
  ∧ service m = set_pop (attr_set service logsource)
  ∧ (if bool_decide (elements (index_set logsource) = []) && negb (is_none defaultindex)
     then use_defaultindex defaultindex
     else OK (elements (index_set logsource))) = OK (index m).
Proof.
  unfold merge_logsources. case_bool_decide; [done|].
  destruct (if _ && _ then _ else _) as [idx|e]; simpl; [|done].
  destruct (if str_eq mergemethod MM_AND then _ else _) as [cond|e]; simpl; [|done].
  by intros [= <-].
Qed.

(** A merge that passes its checks succeeds as soon as the index step does. *)
Lemma merge_logsources_mergeable logsource defaultindex name' mergemethod idx :
  mergeable logsource mergemethod →
  (if bool_decide (elements (index_set logsource) = []) && negb (is_none defaultindex)
   then use_defaultindex defaultindex
   else OK (elements (index_set logsource))) = OK idx →
  ∃ m, merge_logsources logsource defaultindex name' mergemethod = OK m
       ∧ index m = idx.
Proof.
  intros (Hc & Hp & Hs & Hmm) Hidx. unfold merge_logsources.
  rewrite bool_decide_eq_false_2 by lia. rewrite Hidx. simpl.
  destruct Hmm as [-> | ->]; simpl; by eexists.
Qed.

(** A default index of the wrong type fails a merge without index patterns
    that passed the conflict check. *)
Lemma merge_logsources_bad_default logsource defaultindex name' mergemethod :
  size (attr_set category logsource) ≤ 1 →
  size (attr_set product logsource) ≤ 1 →
  size (attr_set service logsource) ≤ 1 →
  index_set logsource = ∅ →
  use_defaultindex defaultindex = Err InvalidDefaultIndexType →
  defaultindex ≠ YNull →
  merge_logsources logsource defaultindex name' mergemethod
  = Err InvalidDefaultIndexType.
Proof.
  intros Hc Hp Hs Hempty Hdef Hnone. unfold merge_logsources.
  rewrite bool_decide_eq_false_2 by lia.
  rewrite Hempty, elements_empty. simpl.
  destruct defaultindex; try done; simpl in *; by rewrite Hdef.
Qed.

(** C3: when the distinct values collected for category, product or
    service number more than one, the merge raises [MergeConflict]; in a
    merged definition an attribute with no collected value is absent; the
    merge of a definition of category [process_creation] with one of
    category [network_connection] raises [MergeConflict]. *)
Theorem merge_conflict logsource defaultindex (name' : option string)
    mergemethod (indexfield' : option string) :
  (1 < size (attr_set category logsource)
   ∨ 1 < size (attr_set product logsource)
   ∨ 1 < size (attr_set service logsource) →
   SigmaLogsourceConfiguration_init (FromList logsource) defaultindex name'
     mergemethod indexfield' = Err MergeConflict)
  ∧ (∀ m,
       SigmaLogsourceConfiguration_init (FromList logsource) defaultindex name'
         mergemethod indexfield' = OK m →
       (attr_set category logsource = ∅ → category m = None)
       ∧ (attr_set product logsource = ∅ → product m = None)
       ∧ (attr_set service logsource = ∅ → service m = None))
  ∧ (∀ a b,
       logsource = [a; b] →
       category a = Some "process_creation" →
       category b = Some "network_connection" →
       SigmaLogsourceConfiguration_init (FromList logsource) defaultindex name'
         mergemethod indexfield' = Err MergeConflict).
Proof.
  assert (1 < size (attr_set category logsource)
          ∨ 1 < size (attr_set product logsource)
          ∨ 1 < size (attr_set service logsource) →
          merge_logsources logsource defaultindex name' mergemethod
          = Err MergeConflict) as Hconflict.
  { intros Hmany. unfold merge_logsources. by rewrite bool_decide_eq_true_2. }
  split; [exact Hconflict|]. split.
  - simpl. intros m (Hc & Hp & Hs & _)%merge_logsources_OK.
    rewrite Hc, Hp, Hs.
    repeat split; intros ->; apply set_pop_empty.
  - intros a b -> Ha Hb. apply Hconflict. left.
    apply (size_two_members _ "process_creation" "network_connection"); [done| |].
    + apply elem_of_attr_set. exists a. split; [by left|done].
    + apply elem_of_attr_set. exists b. split; [by right; left|done].
Qed.

(** C3 at two conflicting definitions and at one definition without a
    category. *)
Lemma merge_conflict_witness :
  SigmaLogsourceConfiguration_init
    (FromList [definition_of (Some "process_creation") [];
               definition_of (Some "network_connection") []])
    YNull None (YStr MM_AND) None = Err MergeConflict
  ∧ ∃ m, SigmaLogsourceConfiguration_init
           (FromList [definition_of None ["idx"]]) YNull None (YStr MM_AND) None
         = OK m
         ∧ category m = None.
Proof.
  split.
  - destruct (merge_conflict
                [definition_of (Some "process_creation") [];
                 definition_of (Some "network_connection") []]
                YNull None (YStr MM_AND) None) as (_ & _ & Hpair).
    by apply (Hpair _ _ eq_refl).
  - destruct (merge_conflict [definition_of None ["idx"]]
                YNull None (YStr MM_AND) None) as (_ & Habsent & _).
    eexists. split; [by vm_compute|].
    apply Habsent; by vm_compute.
Defined.

(** Definitions without index patterns leave the merged set empty. *)
Lemma index_set_no_patterns logsource :
  (∀ ls, ls ∈ logsource → index ls = []) → index_set logsource = ∅.
Proof.
  intros Hnone. apply set_eq. intros i. rewrite elem_of_index_set.
  split; [|by intros ?%not_elem_of_empty].
  intros (ls & Hin & Hi). rewrite (Hnone ls Hin) in Hi. by apply elem_of_nil in Hi.
Qed.

(** C4: for a merge that passes its conflict and merge-method checks, the
    merged index list holds each pattern of the matched definitions once
    and nothing else, whatever the order of the definitions; when no
    pattern is found and a default index is configured, a string default
    gives the one-element list, a list of strings is taken as it is, and
    any other default raises [InvalidDefaultIndexType]; definitions without
    index patterns under the default [main] give the index list [main]. *)
Theorem merged_index logsource defaultindex (name' : option string)
    mergemethod (indexfield' : option string) :
  mergeable logsource mergemethod →
  let merged := SigmaLogsourceConfiguration_init (FromList logsource)
                  defaultindex name' mergemethod indexfield' in
  (index_set logsource ≠ ∅ ∨ defaultindex = YNull →
     ∃ m, merged = OK m ∧ NoDup (index m)
          ∧ ∀ i, i ∈ index m ↔ ∃ ls, ls ∈ logsource ∧ i ∈ index ls)
  ∧ (∀ logsource' m m',
       logsource ≡ₚ logsource' →
       merged = OK m →
       SigmaLogsourceConfiguration_init (FromList logsource')
         defaultindex name' mergemethod indexfield' = OK m' →
       index m ≡ₚ index m')
  ∧ (index_set logsource = ∅ →
       (∀ s, defaultindex = YStr s → ∃ m, merged = OK m ∧ index m = [s])
       ∧ (∀ ys sl, defaultindex = YList ys → str_list ys = Some sl →
            ∃ m, merged = OK m ∧ index m = sl)
       ∧ (defaultindex ≠ YNull →
          (∀ s, defaultindex ≠ YStr s) →
          (∀ ys, defaultindex = YList ys → str_list ys = None) →
          merged = Err InvalidDefaultIndexType))
  ∧ ((∀ ls, ls ∈ logsource → index ls = []) →
     defaultindex = YStr "main" →
     ∃ m, merged = OK m ∧ index m = ["main"]).
Proof.
  intros Hok merged. subst merged. simpl.
  assert (∀ s, index_set logsource = ∅ → defaultindex = YStr s →
            ∃ m, merge_logsources logsource defaultindex name' mergemethod = OK m
                 ∧ index m = [s]) as Hstr.
  { intros s Hempty ->. apply merge_logsources_mergeable; [done|].
    by rewrite Hempty, elements_empty. }
  split; [|split; [|split; [intros Hempty; split; [|split]|]]].
  - intros Hunion.
    destruct (merge_logsources_mergeable logsource defaultindex name' mergemethod
                (elements (index_set logsource)) Hok) as (m & Hm & Hidx).
    { destruct Hunion as [Hne | ->]; [|by rewrite andb_false_r].
      rewrite bool_decide_eq_false_2; [done|].
      intros Hnil. apply Hne. by apply leibniz_equiv, elements_empty_iff. }
    exists m. rewrite Hidx. split; [done|]. split; [apply NoDup_elements|].
    intros i. by rewrite elem_of_elements, elem_of_index_set.
  - intros logsource' m m' Hperm Hm Hm'.
    apply merge_logsources_OK in Hm as (_ & _ & _ & Hm).
    apply merge_logsources_OK in Hm' as (_ & _ & _ & Hm').
    rewrite <- (index_set_perm _ _ Hperm), Hm in Hm'. by injection Hm' as ->.
  - intros s Hd. by apply Hstr.
  - intros ys sl -> Hsl. apply merge_logsources_mergeable; [done|].
    rewrite Hempty, elements_empty. simpl. by rewrite Hsl.
  - intros Hnone Hnostr Hlist. destruct Hok as (? & ? & ? & _).
    apply merge_logsources_bad_default; try done.
    destruct defaultindex as [| | |s|ys|]; simpl; try done.
    + by destruct (Hnostr s).
    + by rewrite (Hlist ys eq_refl).
  - intros Hnone Hd. apply Hstr; [by apply index_set_no_patterns|done].
Qed.

(** C4 at two definitions without index patterns under the default [main]. *)
Lemma merged_index_witness :
  ∃ m, SigmaLogsourceConfiguration_init
         (FromList [definition_of (Some "authentication") [];
                    definition_of None []])
         (YStr "main") None (YStr MM_AND) None = OK m
       ∧ index m = ["main"].
Proof.
  assert (mergeable [definition_of (Some "authentication") []; definition_of None []]
            (YStr MM_AND)) as Hok.
  { repeat split; try (vm_compute; lia). by left. }
  destruct (merged_index _ (YStr "main") None _ None Hok) as (_ & _ & _ & Hmain).
  apply Hmain; [|reflexivity].
  intros ls [->|[->|[]%elem_of_nil]%elem_of_cons]%elem_of_cons; reflexivity.
Defined.

(** ** Properties of [set_backend] *)




(** ** Further properties of log-source matching and resolution *)

(** What a match tells about the definition and the query. *)
Lemma matches_true_inv ls (category' product' service' : option string) :
  truthy (matches ls category' product' service') = true →
  (∀ v, category ls = Some v → category' = Some v)
  ∧ (∀ v, product ls = Some v → product' = Some v)
  ∧ (∀ v, service ls = Some v → service' = Some v)
  ∧ ¬ (category ls = None ∧ product ls = None ∧ service ls = None).
Proof.
  unfold matches. rewrite matches_loop_true.
  rewrite !Forall_cons, !Exists_cons, Forall_nil, Exists_nil. simpl.
  intros [(Hc & Hp & Hs & _) [?|Hsome]]; [done|].
  repeat (split; [done|]).
  intros (Hc' & Hp' & Hs'). destruct Hsome as [?|[?|[?|[]]]]; done.
Qed.

Lemma matches_unspecified ls (category' product' service' : option string) :
  category ls = None → product ls = None → service ls = None →
  matches ls category' product' service' = None.
Proof.
  intros Hc Hp Hs. unfold matches. by rewrite !matches_loop_cons, Hc, Hp, Hs.
Qed.

Lemma elem_of_matching_logsources self category' product' service' ls :
  ls ∈ matching_logsources self category' product' service'
  ↔ ls ∈ logsources self ∧ truthy (matches ls category' product' service') = true.
Proof.
  unfold matching_logsources. rewrite !list_elem_of_In, filter_In. done.
Qed.

(** A set whose members are all equal has at most one element. *)
Lemma size_at_most_one (X : gset string) :
  (∀ x y, x ∈ X → y ∈ X → x = y) → size X ≤ 1.
Proof.
  intros Hsame. destruct (decide (X = ∅)) as [->|Hne]; [by rewrite size_empty; lia|].
  apply set_choose_L in Hne as [x Hx].
  assert (X = {[x]}) as ->; [|by rewrite size_singleton].
  apply set_eq. intros y. rewrite elem_of_singleton. split; [|by intros ->].
  intros Hy. by apply Hsame.
Qed.

Lemma set_pop_Some (X : gset string) v : set_pop X = Some v → v ∈ X.
Proof.
  unfold set_pop. intros Hhead. apply elem_of_elements.
  destruct (elements X) as [|x rest]; [done|].
  injection Hhead as ->. by left.
Qed.

(** In a set of at most one element, [pop] gives its member. *)
Lemma set_pop_member (X : gset string) v :
  size X ≤ 1 → v ∈ X → set_pop X = Some v.
Proof.
  intros Hsize Hv. unfold set_pop. unfold size, set_size in Hsize. simpl in Hsize.
  apply elem_of_elements in Hv.
  destruct (elements X) as [|x [|y rest]]; simpl in *; [by apply elem_of_nil in Hv| |lia].
  by apply list_elem_of_singleton in Hv as ->.
Qed.

(** The attribute values collected from matching definitions are all the
    query's value, so there is at most one. *)
Lemma matching_attr_set_size self category' product' service' attr (query : option string) :
  (∀ ls v, truthy (matches ls category' product' service') = true →
           attr ls = Some v → query = Some v) →
  size (attr_set attr (matching_logsources self category' product' service')) ≤ 1.
Proof.
  intros Hagree. apply size_at_most_one. intros x y.
  rewrite !elem_of_attr_set.
  intros (ls & [_ Hm]%elem_of_matching_logsources & Hx)
         (ls' & [_ Hm']%elem_of_matching_logsources & Hy).
  pose proof (Hagree _ _ Hm Hx) as Hqx. pose proof (Hagree _ _ Hm' Hy) as Hqy.
  congruence.
Qed.

Lemma matching_no_conflict self category' product' service' :
  let matching := matching_logsources self category' product' service' in
  size (attr_set category matching) ≤ 1
  ∧ size (attr_set product matching) ≤ 1
  ∧ size (attr_set service matching) ≤ 1.
Proof.
  cbv zeta. repeat split.
  - apply (matching_attr_set_size _ _ _ _ _ category').
    intros ls v (H & _)%matches_true_inv. apply H.
  - apply (matching_attr_set_size _ _ _ _ _ product').
    intros ls v (_ & H & _)%matches_true_inv. apply H.
  - apply (matching_attr_set_size _ _ _ _ _ service').
    intros ls v (_ & _ & H & _)%matches_true_inv. apply H.
Qed.

Lemma use_defaultindex_error defaultindex e :
  use_defaultindex defaultindex = Err e → e = InvalidDefaultIndexType.
Proof.
  destruct defaultindex as [| | | |l|]; simpl; try by intros [= <-].
  destruct (str_list l); by intros [= <-].
Qed.

(** X1: the resolver never fails on a conflict or on the merge method: the
    definitions that match one query agree on category, product and
    service, and the merge is called with the AND method.  Its only error
    is a default index of the wrong type, and it succeeds whenever some
    matching definition has an index pattern or no default is configured. *)
Theorem get_logsource_errors self (category' product' service' : option string) :
  (∀ e, get_logsource self category' product' service' = Err e →
        e = InvalidDefaultIndexType
        ∧ index_set (matching_logsources self category' product' service') = ∅
        ∧ defaultindex self ≠ YNull)
  ∧ (index_set (matching_logsources self category' product' service') ≠ ∅
     ∨ defaultindex self = YNull →
     ∃ m, get_logsource self category' product' service' = OK m).
Proof.
  pose proof (matching_no_conflict self category' product' service')
    as (Hc & Hp & Hs).
  unfold get_logsource. fold (matching_logsources self category' product' service').
  simpl. unfold merge_logsources.
  rewrite bool_decide_eq_false_2 by lia.
  set (matching := matching_logsources self category' product' service') in *.
  split.
  - intros e.
    destruct (bool_decide (elements (index_set matching) = [])) eqn:Hnil; simpl.
    + apply bool_decide_eq_true_1 in Hnil.
      destruct (is_none (defaultindex self)) eqn:Hnone; simpl; [done|].
      destruct (use_defaultindex (defaultindex self)) as [idx|e'] eqn:Hdef;
        simpl; [done|].
      intros [= <-]. split; [by eapply use_defaultindex_error|].
      split; [by apply leibniz_equiv, elements_empty_iff|].
      by intros Heq; rewrite Heq in Hnone.
    + done.
  - intros Hcase.
    assert (bool_decide (elements (index_set matching) = [])
            && negb (is_none (defaultindex self)) = false) as ->.
    { destruct Hcase as [Hne| ->]; [|by rewrite andb_false_r].
      rewrite bool_decide_eq_false_2; [done|].
      intros Hnil. apply Hne. by apply leibniz_equiv, elements_empty_iff. }
    simpl. by eexists.
Qed.

(** X2: what the resolver returns comes from definitions of the
    configuration that match the query: a merged category, product or
    service is the query's and is specified by a matching definition, and
    every definition that matches and specifies the attribute gives that
    value. *)
Theorem get_logsource_attributes self (category' product' service' : option string) m :
  get_logsource self category' product' service' = OK m →
  (∀ v, category m = Some v →
        category' = Some v
        ∧ ∃ ls, ls ∈ logsources self
                ∧ truthy (matches ls category' product' service') = true
                ∧ category ls = Some v)
  ∧ (∀ v, product m = Some v →
          product' = Some v
          ∧ ∃ ls, ls ∈ logsources self
                  ∧ truthy (matches ls category' product' service') = true
                  ∧ product ls = Some v)
  ∧ (∀ v, service m = Some v →
          service' = Some v
          ∧ ∃ ls, ls ∈ logsources self
                  ∧ truthy (matches ls category' product' service') = true
                  ∧ service ls = Some v)
  ∧ (∀ ls, ls ∈ logsources self →
           truthy (matches ls category' product' service') = true →
           (∀ v, category ls = Some v → category m = Some v)
           ∧ (∀ v, product ls = Some v → product m = Some v)
           ∧ (∀ v, service ls = Some v → service m = Some v)).
Proof.
  pose proof (matching_no_conflict self category' product' service')
    as (Hsc & Hsp & Hss).
  unfold get_logsource. fold (matching_logsources self category' product' service').
  simpl. intros (Hc & Hp & Hs & _)%merge_logsources_OK.
  rewrite Hc, Hp, Hs.
  assert (∀ attr (query : option string) v,
            (∀ ls v, truthy (matches ls category' product' service') = true →
                     attr ls = Some v → query = Some v) →
            set_pop (attr_set attr (matching_logsources self category' product' service'))
            = Some v →
            query = Some v
            ∧ ∃ ls, ls ∈ logsources self
                    ∧ truthy (matches ls category' product' service') = true
                    ∧ attr ls = Some v) as Hfrom.
  { intros attr query v Hagree
      (ls & [Hin Hm]%elem_of_matching_logsources & Hv)%set_pop_Some%elem_of_attr_set.
    split; [by eapply Hagree|]. by exists ls. }
  split; [|split; [|split]].
  - intros v. apply Hfrom. intros ls w (H & _)%matches_true_inv. apply H.
  - intros v. apply Hfrom. intros ls w (_ & H & _)%matches_true_inv. apply H.
  - intros v. apply Hfrom. intros ls w (_ & _ & H & _)%matches_true_inv. apply H.
  - intros ls Hin Hm.
    repeat split; intros v Hv; (apply set_pop_member; [done|]);
      apply elem_of_attr_set; exists ls;
      (split; [by apply elem_of_matching_logsources|done]).
Qed.


(** A merge that succeeds had no conflict. *)
Lemma merge_logsources_OK_sizes logsource defaultindex name' mergemethod m :
  merge_logsources logsource defaultindex name' mergemethod = OK m →
  size (attr_set category logsource) ≤ 1
  ∧ size (attr_set product logsource) ≤ 1
  ∧ size (attr_set service logsource) ≤ 1.
Proof.
  unfold merge_logsources. case_bool_decide as Hmany; [done|]. intros _. lia.
Qed.

(** X4: in a merged definition, category, product and service agree with
    every merged definition that specifies them: a definition's category is
    the merged category (and so for product and service), and a merged
    category is the category of one of the definitions. *)
Theorem merge_attributes_agree logsource defaultindex (name' : option string)
    mergemethod (indexfield' : option string) m :
  SigmaLogsourceConfiguration_init (FromList logsource) defaultindex name'
    mergemethod indexfield' = OK m →
  (∀ ls, ls ∈ logsource →
         (∀ v, category ls = Some v → category m = Some v)
         ∧ (∀ v, product ls = Some v → product m = Some v)
         ∧ (∀ v, service ls = Some v → service m = Some v))
  ∧ (∀ v, category m = Some v → ∃ ls, ls ∈ logsource ∧ category ls = Some v)
  ∧ (∀ v, product m = Some v → ∃ ls, ls ∈ logsource ∧ product ls = Some v)
  ∧ (∀ v, service m = Some v → ∃ ls, ls ∈ logsource ∧ service ls = Some v).
Proof.
  simpl. intros Hm.
  pose proof (merge_logsources_OK_sizes _ _ _ _ _ Hm) as (Hsc & Hsp & Hss).
  apply merge_logsources_OK in Hm as (Hc & Hp & Hs & _).
  rewrite Hc, Hp, Hs. split; [|repeat split].
  - intros ls Hin.
    repeat split; intros v Hv; (apply set_pop_member; [done|]);
      apply elem_of_attr_set; by exists ls.
  - intros v Hv%set_pop_Some. by apply elem_of_attr_set.
  - intros v Hv%set_pop_Some. by apply elem_of_attr_set.
  - intros v Hv%set_pop_Some. by apply elem_of_attr_set.
Qed.

(** What a merge that succeeds returns for the index field and the
    conditions. *)
Lemma merge_logsources_OK_conditions logsource defaultindex name' mergemethod m :
  merge_logsources logsource defaultindex name' mergemethod = OK m →
  name m = name'
  ∧ indexfield m = head (omap indexfield logsource)
  ∧ ((mergemethod = YStr MM_AND
      ∧ conditions m = match omap conditions logsource with
                       | [] => None
                       | added => Some (ConditionAND added)
                       end)
     ∨ (mergemethod = YStr MM_OR
        ∧ conditions m = match omap conditions logsource with
                         | [] => None
                         | added => Some (ConditionOR added)
                         end)).
Proof.
  unfold merge_logsources. case_bool_decide; [done|].
  destruct (if _ && _ then _ else _) as [idx|e]; simpl; [|done].
  destruct mergemethod as [| | |mm| |]; simpl; try done.
  destruct (String.eqb mm MM_AND) eqn:Hand; simpl.
  - apply String.eqb_eq in Hand as ->. intros [= <-]. simpl.
    do 2 (split; [done|]). left. split; [done|].
    by destruct (omap conditions logsource).
  - destruct (String.eqb mm MM_OR) eqn:Hor; simpl; [|done].
    apply String.eqb_eq in Hor as ->. intros [= <-]. simpl.
    do 2 (split; [done|]). right. split; [done|].
    by destruct (omap conditions logsource).
Qed.

(** X5: the merge succeeds only with the AND or the OR method, and the
    merged definition has no conditions exactly when none of the merged
    definitions has; otherwise its conditions are one AND node (AND method)
    or one OR node (OR method) over the conditions of the definitions that
    have some, in the order of the list, also when a single definition is
    merged: its conditions are wrapped, not returned as they are. *)
Theorem merge_conditions logsource defaultindex (name' : option string)
    mergemethod (indexfield' : option string) m :
  SigmaLogsourceConfiguration_init (FromList logsource) defaultindex name'
    mergemethod indexfield' = OK m →
  (conditions m = None ↔ ∀ ls, ls ∈ logsource → conditions ls = None)
  ∧ ((mergemethod = YStr MM_AND
      ∧ ((∃ ls, ls ∈ logsource ∧ conditions ls ≠ None) →
         conditions m = Some (ConditionAND (omap conditions logsource))))
     ∨ (mergemethod = YStr MM_OR
        ∧ ((∃ ls, ls ∈ logsource ∧ conditions ls ≠ None) →
           conditions m = Some (ConditionOR (omap conditions logsource)))))
  ∧ (∀ ls c, logsource = [ls] → conditions ls = Some c →
       conditions m = Some (ConditionAND [c]) ∨ conditions m = Some (ConditionOR [c])).
Proof.
  simpl. intros (_ & _ & Hcond)%merge_logsources_OK_conditions.
  assert (omap conditions logsource = [] ↔ ∀ ls, ls ∈ logsource → conditions ls = None)
    as Hnil.
  { split.
    - intros Hempty ls Hin. destruct (conditions ls) as [c|] eqn:Hc; [|done].
      assert (c ∈ omap conditions logsource) as Hmem
        by (apply list_elem_of_omap; by exists ls).
      rewrite Hempty in Hmem. by apply elem_of_nil in Hmem.
    - intros Hnone. destruct (omap conditions logsource) as [|c rest] eqn:Hc; [done|].
      assert (c ∈ omap conditions logsource) as (ls & Hin & Hsome)%list_elem_of_omap
        by (rewrite Hc; by left).
      by rewrite (Hnone ls Hin) in Hsome. }
  split; [|split].
  - rewrite <- Hnil.
    destruct Hcond as [[_ ->]|[_ ->]]; by destruct (omap conditions logsource).
  - destruct Hcond as [[Hmm Hm]|[Hmm Hm]]; [left|right]; (split; [done|]);
      intros (ls & Hin & Hsome); rewrite Hm;
      (destruct (omap conditions logsource) as [|c rest] eqn:Hc; [|done]);
      destruct Hsome; by apply Hnil.
  - intros ls c -> Hc. simpl in Hcond. rewrite Hc in Hcond. simpl in Hcond.
    destruct Hcond as [[_ ->]|[_ ->]]; [by left|by right].
Qed.

(** X6: whatever merge method the configuration names, the resolver
    combines the conditions of the matching definitions under AND: its
    result never carries an OR node, and it has no conditions exactly when
    no matching definition has. *)
Theorem get_logsource_conditions self (category' product' service' : option string) m :
  get_logsource self category' product' service' = OK m →
  conditions m
  = match omap conditions (matching_logsources self category' product' service') with
    | [] => None
    | added => Some (ConditionAND added)
    end
  ∧ (∀ items, conditions m ≠ Some (ConditionOR items))
  ∧ name m = None.
Proof.
  unfold get_logsource. fold (matching_logsources self category' product' service').
  simpl. intros (Hname & _ & Hcond)%merge_logsources_OK_conditions.
  destruct Hcond as [[_ Hm]|[[=] _]]. rewrite Hm. split; [done|]. split; [|done].
  intros items. by destruct (omap conditions _).
Qed.

(** ** Further properties of loading log-source definitions *)

(** What a definition loaded from a mapping holds. *)
Lemma parse_logsource_OK logsource name' indexfield' ls :
  parse_logsource logsource name' indexfield' = OK ls →
  name ls = name' ∧ indexfield ls = indexfield'
  ∧ category ls = str_attr "category" logsource
  ∧ product ls = str_attr "product" logsource
  ∧ service ls = str_attr "service" logsource
  ∧ ¬ (category ls = None ∧ product ls = None ∧ service ls = None)
  ∧ (getitem "index" logsource = None → index ls = [])
  ∧ (∀ s, getitem "index" logsource = Some (YStr s) → index ls = [s])
  ∧ (getitem "conditions" logsource = None → conditions ls = None)
  ∧ (∀ c, getitem "conditions" logsource = Some (YDict c) →
          conditions ls
          = Some (ConditionAND (map (λ kv, MapItem kv.1 (node_of_yaml kv.2)) c))).
Proof.
  unfold parse_logsource.
  destruct (_ || _); [done|].
  destruct (str_attr "category" logsource) as [c|] eqn:Hc,
           (str_attr "product" logsource) as [p|] eqn:Hp,
           (str_attr "service" logsource) as [s|] eqn:Hs; try done;
    (destruct (getitem "index" logsource) as [[| | |ix|l|]|]; simpl; try done;
     [ | destruct (str_list l); simpl; try done | ]);
    (destruct (getitem "conditions" logsource) as [[| | | | |cs]|]; simpl; try done);
    intros [= <-]; simpl; repeat split; try done;
    try (by intros (? & ? & ?)); try (by intros ? [= <-]).
Qed.

(** A definition that specifies an attribute matches the query made of its
    own attributes. *)
Lemma matches_own_attributes ls :
  ¬ (category ls = None ∧ product ls = None ∧ service ls = None) →
  truthy (matches ls (category ls) (product ls) (service ls)) = true.
Proof.
  intros Hsome. unfold matches. apply matches_loop_true.
  rewrite !Forall_cons, !Exists_cons, Forall_nil, Exists_nil. simpl.
  split; [done|]. right.
  destruct (category ls); [by left|]. destruct (product ls); [right; by left|].
  destruct (service ls); [right; right; by left|]. by destruct Hsome.
Qed.

(** X7: a definition loaded from a mapping of the configuration document
    keeps the name and the index field it is given, specifies at least one
    of category, product and service, and matches the query made of its own
    attributes.  Without an [index] key its index list is empty whatever
    default index is configured, and a [conditions] mapping gives one AND
    node with a map item per entry, in order, also for an empty mapping. *)
Theorem loaded_definition (logsource : dict) defaultindex (name' : option string)
    mergemethod (indexfield' : option string) ls :
  SigmaLogsourceConfiguration_init (FromYaml (YDict logsource)) defaultindex
    name' mergemethod indexfield' = OK ls →
  name ls = name' ∧ indexfield ls = indexfield'
  ∧ ¬ (category ls = None ∧ product ls = None ∧ service ls = None)
  ∧ truthy (matches ls (category ls) (product ls) (service ls)) = true
  ∧ (getitem "index" logsource = None → index ls = [])
  ∧ (∀ c, getitem "conditions" logsource = Some (YDict c) →
          ∃ items, conditions ls = Some (ConditionAND items)
                   ∧ length items = length c
                   ∧ Forall2 (λ item kv, ∃ value, item = MapItem kv.1 value) items c).
Proof.
  simpl. intros (Hn & Hi & _ & _ & _ & Hsome & Hidx & _ & _ & Hcond)%parse_logsource_OK.
  repeat (split; [done|]). split; [by apply matches_own_attributes|].
  split; [done|]. intros c Hc. eexists. split; [by apply Hcond|].
  split; [by rewrite length_map|].
  clear. induction c as [|kv c IH]; simpl; constructor; [by eexists|done].
Qed.

(** X8: an entry of the [logsources] section that is null or an empty list
    is accepted, and the definition it gives specifies no attribute, so it
    matches no query; an entry that is a string, a number, a boolean or a
    non-empty list is refused with "Logsource definitions must be maps". *)
Theorem degenerate_entries (entry : yaml) defaultindex (name' : option string)
    mergemethod (indexfield' : option string) :
  (entry = YNull ∨ entry = YList [] →
   ∀ ls, SigmaLogsourceConfiguration_init (FromYaml entry) defaultindex name'
           mergemethod indexfield' = OK ls →
         ∀ category' product' service' : option string,
           matches ls category' product' service' = None)
  ∧ (entry = YNull →
     ∃ ls, SigmaLogsourceConfiguration_init (FromYaml entry) defaultindex name'
             mergemethod indexfield' = OK ls ∧ index ls = [])
  ∧ ((∃ b, entry = YBool b) ∨ (∃ n, entry = YInt n) ∨ (∃ s, entry = YStr s)
     ∨ (∃ y l, entry = YList (y :: l)) →
     SigmaLogsourceConfiguration_init (FromYaml entry) defaultindex name'
       mergemethod indexfield'
     = Err (SigmaConfigParseError "Logsource definitions must be maps")).
Proof.
  split; [|split].
  - intros [-> | ->] ls; simpl.
    + intros [= <-] c p s. by apply matches_unspecified.
    + intros (Hc & Hp & Hs & _)%merge_logsources_OK c p s.
      apply matches_unspecified; rewrite ?Hc, ?Hp, ?Hs; apply set_pop_empty.
  - intros ->. by eexists.
  - intros [[b ->]|[[n ->]|[[s ->]|(y & l & ->)]]]; done.
Qed.

(** ** Further properties of [SigmaConfiguration] *)


(** The loop of [set_backend] appends the definitions built from the items
    and changes nothing else; what it builds depends on the configuration
    only through the default index, the merge method and the backend. *)
Lemma set_backend_loop_built items self :
  set_backend_loop items self
  = let '(r, added) := built_definitions items (defaultindex self)
                         (logsourcemerging self) (get_indexfield self) in
    (r, {| config := config self; fieldmappings := fieldmappings self;
           logsources := logsources self ++ added;
           logsourcemerging := logsourcemerging self;
           defaultindex := defaultindex self; backend := backend self |}).
Proof.
  revert self. induction items as [|[name' logsource] items IH]; intros self.
  - simpl. rewrite app_nil_r. by destruct self.
  - cbn [set_backend_loop built_definitions].
    destruct (SigmaLogsourceConfiguration_init (FromYaml logsource) _ _ _ _)
      as [ls|e].
    + rewrite IH.
      cbn [append_logsource config fieldmappings logsourcemerging defaultindex
           backend logsources get_indexfield].
      destruct (built_definitions items _ _ _) as [r more].
      by rewrite <- app_assoc.
    + rewrite app_nil_r. by destruct self.
Qed.



(** X10: attaching a backend is not idempotent: a second call with the same
    backend builds the same definitions again and appends them after the
    first ones, so every definition of the document is then held twice. *)
Theorem set_backend_twice self (backend' : option Backend) :
  let once := set_backend self backend' in
  let twice := set_backend once.2 backend' in
  ∃ added,
    logsources once.2 = logsources self ++ added
    ∧ logsources twice.2 = (logsources self ++ added) ++ added
    ∧ twice.1 = once.1.
Proof.
  unfold set_backend. cbv zeta.
  change (config (with_backend self backend')) with (config self).
  destruct (config self) as [cfg|] eqn:Hcfg.
  - destruct (getitem "logsources" cfg) as [[ |b|n|s|l|items]|] eqn:Hitems;
      try (exists []; cbn [snd fst with_backend config logsources];
           rewrite Hcfg, Hitems, !app_nil_r; done).
    rewrite set_backend_loop_built. unfold get_indexfield.
    cbn [with_backend config fieldmappings logsourcemerging defaultindex
         backend logsources].
    destruct (built_definitions items _ _ _) as [r added] eqn:Hbuilt.
    cbn [snd fst with_backend config logsources]. rewrite Hcfg, Hitems.
    rewrite set_backend_loop_built. unfold get_indexfield.
    cbn [with_backend config fieldmappings logsourcemerging defaultindex
         backend logsources].
    rewrite Hbuilt. by exists added.
  - exists []. cbn [snd fst with_backend config logsources].
    by rewrite Hcfg, !app_nil_r.
Qed.

(** What a configuration holds when it is built. *)
Lemma SigmaConfiguration_init_OK configyaml self :
  SigmaConfiguration_init configyaml = OK self →
  logsources self = [] ∧ backend self = None
  ∧ match configyaml with
    | None =>
        config self = None ∧ logsourcemerging self = YStr MM_AND
        ∧ defaultindex self = YNull
    | Some (YDict cfg) =>
        config self = Some cfg
        ∧ logsourcemerging self
          = default (YStr MM_AND) (getitem "logsourcemerging" cfg)
        ∧ defaultindex self = default YNull (getitem "defaultindex" cfg)
    | Some _ => False
    end.
Proof.
  destruct configyaml as [[| | | | |cfg]|]; simpl; try done.
  - destruct (getitem "fieldmappings" cfg) as [[| | | | |m]|]; simpl; try done;
      by intros [= <-].
  - by intros [= <-].
Qed.

(** X11: a document that is not a mapping (an empty document, a string, a
    number, a list) makes the constructor raise [TypeError].  A new
    configuration holds no log-source definition and no backend, even when
    its document has a [logsources] section; it keeps the document, and the
    merge method and the default index are the document's, AND and none
    when the document does not give them. *)
Theorem SigmaConfiguration_init_outcome (configyaml : option yaml) :
  (∀ y, configyaml = Some y → (∀ cfg, y ≠ YDict cfg) →
        SigmaConfiguration_init configyaml = Err PyTypeError)
  ∧ (∀ self, SigmaConfiguration_init configyaml = OK self →
       logsources self = [] ∧ backend self = None
       ∧ (configyaml = None →
          config self = None ∧ logsourcemerging self = YStr MM_AND
          ∧ defaultindex self = YNull)
       ∧ (∀ cfg, configyaml = Some (YDict cfg) →
            config self = Some cfg
            ∧ (getitem "logsourcemerging" cfg = None →
               logsourcemerging self = YStr MM_AND)
            ∧ (∀ v, getitem "logsourcemerging" cfg = Some v →
                    logsourcemerging self = v)
            ∧ (getitem "defaultindex" cfg = None → defaultindex self = YNull)
            ∧ (∀ v, getitem "defaultindex" cfg = Some v → defaultindex self = v))).
Proof.
  split.
  - intros y -> Hnot. destruct y as [| | | | |cfg]; try done. by destruct (Hnot cfg).
  - intros self (Hls & Hbe & Hrest)%SigmaConfiguration_init_OK.
    do 2 (split; [done|]). split.
    + by intros ->.
    + intros cfg ->. destruct Hrest as (Hcfg & Hmm & Hdef).
      split; [done|]. rewrite Hmm, Hdef.
      split; [by intros ->|]. split; [by intros v ->|].
      split; [by intros ->|]. by intros v ->.
Qed.

(** X12: before a backend is attached, a configuration built from a document
    resolves nothing from the document's [logsources] section: whatever the
    query, the result has no category, product, service, index field or
    conditions, and its index list is empty or the default index. *)
Theorem get_logsource_before_attach (configyaml : option yaml) self
    (category' product' service' : option string) :
  SigmaConfiguration_init configyaml = OK self →
  (∀ m, get_logsource self category' product' service' = OK m →
     category m = None ∧ product m = None ∧ service m = None
     ∧ indexfield m = None ∧ conditions m = None
     ∧ (index m = [] ∧ defaultindex self = YNull
        ∨ use_defaultindex (defaultindex self) = OK (index m)))
  ∧ (defaultindex self = YNull →
     ∃ m, get_logsource self category' product' service' = OK m ∧ index m = []).
Proof.
  intros Hinit.
  apply SigmaConfiguration_init_OK in Hinit as (Hnone & _).
  unfold get_logsource. rewrite Hnone. simpl. split.
  - intros m Hm.
    pose proof (merge_logsources_OK _ _ _ _ _ Hm) as (Hc & Hp & Hs & Hidx).
    pose proof (merge_logsources_OK_conditions _ _ _ _ _ Hm) as (_ & Hif & Hcond).
    rewrite Hc, Hp, Hs, Hif.
    repeat (split; [done|]).
    split; [by destruct Hcond as [[_ ->]|[_ ->]]|].
    change (elements (index_set [])) with (@nil string) in Hidx. simpl in Hidx.
    destruct (defaultindex self) eqn:Hd; simpl in Hidx;
      try (by right); left. by injection Hidx as <-.
  - intros ->. by eexists.
Qed.

(** X13: the index condition exists exactly when the index field is a
    non-empty string; it is then one OR node with a map item of the index
    field per index pattern, in order, also when there is no pattern. *)
Theorem get_indexcond_outcome ls :
  (get_indexcond ls = None
   ↔ indexfield ls = None ∨ indexfield ls = Some EmptyString)
  ∧ (∀ c, get_indexcond ls = Some c →
       ∃ field,
         indexfield ls = Some field ∧ field ≠ EmptyString
         ∧ c = ConditionOR (map (λ i, MapItem field (Scalar (Str i))) (index ls))).
Proof.
  unfold get_indexcond. destruct (indexfield ls) as [field|]; [|split; [by split; auto|done]].
  case_bool_decide as Hne; split.
  - split; [done|]. by intros [[=]|[= ->]].
  - intros c [= <-]. by exists field.
  - split; [|done]. intros _. right. f_equal.
    by destruct (decide (field = EmptyString)).
  - done.
Qed.

(** ** Further properties of the tree renderer *)

(** X14: a map item whose value is an object of the condition classes,
    another map item, or an object that is neither a string, an integer nor
    a list ([None], a boolean, a mapping) is refused with
    [UnsupportedMapValueType], whatever its key. *)
Theorem generateNode_map_value_unsupported (key : string) (value : node) :
  neither_scalar_nor_list value = true →
  generateNode (MapItem key value) = Err UnsupportedMapValueType.
Proof. destruct value as [| | | | | | | | |[]]; done. Qed.

Lemma generateNode_map_value_unsupported_witness :
  generateNode (MapItem "EventID" (ConditionNOT (Scalar (Int 1))))
  = Err UnsupportedMapValueType
  ∧ generateNode (MapItem "EventID" (Unexpected YNull))
    = Err UnsupportedMapValueType.
Proof.
  split.
  - by apply (generateNode_map_value_unsupported "EventID"
                (ConditionNOT (Scalar (Int 1)))).
  - by apply (generateNode_map_value_unsupported "EventID" (Unexpected YNull)).
Defined.

Lemma replace_char_removes old new s :
  old ≠ new → Py.has_char old (Py.replace_char old new s) = false.
Proof.
  intros Hne. induction s as [|c s IH]; simpl; [done|]. rewrite IH, orb_false_r.
  destruct (Ascii.eqb c old) eqn:Hc; [by apply Ascii.eqb_neq|done].
Qed.

Lemma replace_char_length old new s :
  String.length (Py.replace_char old new s) = String.length s.
Proof. induction s as [|c s IH]; simpl; [done|by rewrite IH]. Qed.

Lemma cleanValue_has_char c s :
  c ≠ "092"%char → Py.has_char c (cleanValue s) = Py.has_char c s.
Proof.
  intros Hc. induction s as [|a s IH]; [done|].
  cbn [cleanValue]. destruct (reEscape a); cbn [Py.has_char]; rewrite IH; [|done].
  replace (Ascii.eqb "092" c) with false; [done|].
  symmetry. apply Ascii.eqb_neq. congruence.
Qed.

(** X15: a string value with a wildcard marker is rendered as a pattern
    match whose literal holds no [*] any more, each one being replaced by
    [%]; when the value has no double quote the literal is the value with
    that replacement and nothing else changed. *)
Theorem generateNode_wildcard (key s : string) :
  Py.has_char "*" s = true →
  ∃ literal,
    generateNode (MapItem key (Scalar (Str s)))
    = OK (cleanKey key +:+ " ilike '" +:+ literal +:+ "'")
    ∧ Py.has_char "*" literal = false
    ∧ (Py.has_char "034" s = false →
       literal = Py.replace_char "*" "%" s
       ∧ String.length literal = String.length s).
Proof.
  intros Hstar. exists (cleanValue (Py.replace_char "*" "%" s)).
  split; [|split].
  - cbn [generateNode]. unfold generateMapItemNode.
    cbn [is_str_int mapListsSpecialHandling negb andb orb]. rewrite Hstar.
    reflexivity.
  - rewrite cleanValue_has_char by done. by apply replace_char_removes.
  - intros Hquote. rewrite cleanValue_without_double_quote.
    + split; [done|apply replace_char_length].
    + clear Hstar. induction s as [|c s IH]; simpl in *; [done|].
      apply orb_false_iff in Hquote as [Hc Hs]. rewrite IH by done.
      rewrite orb_false_r. destruct (Ascii.eqb c "*") eqn:Hstar; [done|done].
Qed.

Lemma generateNode_wildcard_witness :
  ∃ literal,
    generateNode (MapItem "Image" (Scalar (Str "*cmd.exe")))
    = OK (cleanKey "Image" +:+ " ilike '" +:+ literal +:+ "'")
    ∧ Py.has_char "*" literal = false.
Proof.
  destruct (generateNode_wildcard "Image" "*cmd.exe" eq_refl)
    as (literal & Hrender & Hstar & _).
  by exists literal.
Defined.

(** The decimal text of an integer holds no double quote. *)
Lemma pretty_N_go_no_double_quote (x : N) (s : string) :
  Py.has_char "034" (pretty_N_go x s) = Py.has_char "034" s.
Proof.
  revert s. induction (N.lt_wf_0 x) as [x _ IH]; intros s.
  destruct (decide (x = 0%N)) as [->|Hx]; [by rewrite pretty_N_go_0|].
  rewrite pretty_N_go_step by lia.
  rewrite IH by (apply N.div_lt; lia). simpl.
  replace (Ascii.eqb (pretty_N_char (x `mod` 10)) "034") with false; [done|].
  unfold pretty_N_char. by repeat case_match.
Qed.

Lemma str_int_no_double_quote (n : Z) : Py.has_char "034" (Py.str_int n) = false.
Proof.
  unfold Py.str_int, pretty, pretty_Z.
  destruct n as [|p|p]; [done| |].
  - unfold pretty, pretty_positive, pretty, pretty_N.
    destruct (decide (N.pos p = 0%N)) as [|_]; [done|].
    by rewrite pretty_N_go_no_double_quote.
  - change (Py.has_char "034" (String "-" (pretty p)) = false).
    unfold pretty, pretty_positive, pretty, pretty_N. simpl.
    destruct (decide (N.pos p = 0%N)) as [|_]; [done|].
    by rewrite pretty_N_go_no_double_quote.
Qed.

(** X16: an integer value is never pattern-matched nor escaped: in a map
    item it renders as the key, [=] and its decimal text between single
    quotes; alone it renders as a payload search for its decimal text; in a
    list value it gives the equality clause of the list form. *)
Theorem generateNode_int (key : string) (n : Z) :
  generateNode (MapItem key (Scalar (Int n)))
  = OK (cleanKey key +:+ "='" +:+ Py.str_int n +:+ "'")
  ∧ generateNode (Scalar (Int n))
    = OK ("UTF8(payload) ilike '%" +:+ Py.str_int n +:+ "%'")
  ∧ generateNode (MapItem key (ListValue [Int n]))
    = OK ("(" +:+ (cleanKey key +:+ " = '" +:+ Py.str_int n +:+ "'") +:+ ")").
Proof.
  pose proof (cleanValue_without_double_quote _ (str_int_no_double_quote n)) as Hclean.
  split; [|split]; cbn [generateNode]; unfold generateMapItemNode,
    generateMapItemListNode, list_item_clause, generateValueNode;
    cbn [is_str_int mapListsSpecialHandling negb andb orb py_str fold_left app
         Py.join];
    rewrite Hclean; reflexivity.
Qed.

(** ** Further properties of the query assembler *)

Lemma prefix_occurs (sub s : string) :
  String.prefix sub s = true ↔ ∃ after, s = sub +:+ after.
Proof.
  revert s. induction sub as [|a sub IH]; intros [|b s]; simpl.
  - split; [intros _; by exists EmptyString|done].
  - split; [intros _; by exists (String b s)|done].
  - split; [done|]. intros [after Hs].
    change (EmptyString = String a (sub +:+ after)) in Hs. done.
  - destruct (ascii_dec a b) as [->|Hne].
    + rewrite IH. split; intros [after Hs]; exists after.
      * change (String b s = String b (sub +:+ after)). by rewrite Hs.
      * change (String b s = String b (sub +:+ after)) in Hs. by injection Hs.
    + split; [done|]. intros [after Hs].
      change (String b s = String a (sub +:+ after)) in Hs. by injection Hs.
Qed.

(** [Py.contains] decides the occurrence of a substring. *)
Lemma contains_occurs (sub s : string) :
  Py.contains sub s = true ↔ occurs_in sub s.
Proof.
  unfold occurs_in. induction s as [|c s IH].
  - cbn [Py.contains]. rewrite orb_false_r, prefix_occurs. split.
    + intros [after Hs]. exists EmptyString, after. exact Hs.
    + intros ([|b before] & after & Hs); [by exists after|].
      change (EmptyString = String b (before +:+ sub +:+ after)) in Hs. done.
  - cbn [Py.contains]. rewrite orb_true_iff, prefix_occurs, IH. split.
    + intros [[after Hs]|(before & after & Hs)].
      * exists EmptyString, after. exact Hs.
      * exists (String c before), after.
        change (String c s = String c (before +:+ sub +:+ after)). by rewrite Hs.
    + intros ([|b before] & after & Hs).
      * left. by exists after.
      * right. exists before, after.
        change (String c s = String b (before +:+ sub +:+ after)) in Hs.
        by injection Hs.
Qed.

(** X17: a query without aggregation reads from [flows] exactly when the
    text [flow] occurs in some resolved index pattern, and from [events]
    otherwise; nothing else of the log source reaches the query. *)
Theorem generateQuery_data_source self parsed sigmaparser ls pred :
  parsedAgg parsed = None →
  generateNode (parsedSearch parsed) = OK pred →
  rule_logsource sigmaparser = OK (Some ls) →
  ((∃ i, i ∈ index ls ∧ occurs_in "flow" i)
   ∧ (generateQuery self parsed sigmaparser).1
     = OK ("SELECT UTF8(payload) as search_payload from flows where " +:+ pred))
  ∨ ((∀ i, i ∈ index ls → ¬ occurs_in "flow" i)
     ∧ (generateQuery self parsed sigmaparser).1
       = OK ("SELECT UTF8(payload) as search_payload from events where " +:+ pred)).
Proof.
  intros Hagg Hpred Hls. unfold generateQuery. rewrite Hpred, Hls, Hagg.
  destruct (existsb (Py.contains "flow") (index ls)) eqn:Hflow.
  - left. split; [|done].
    apply existsb_exists in Hflow as (i & Hin & Hi).
    exists i. split; [by apply list_elem_of_In|by apply contains_occurs].
  - right. split; [|done]. intros i Hin Hocc.
    assert (existsb (Py.contains "flow") (index ls) = true) as Htrue; [|congruence].
    apply existsb_exists. exists i.
    split; [by apply list_elem_of_In|by apply contains_occurs].
Qed.

Lemma generateQuery_data_source_witness :
  (generateQuery fresh_backend {| parsedSearch := logon_search; parsedAgg := None |}
     (rule_on netflow_logsource [])).1
  = OK ("SELECT UTF8(payload) as search_payload from flows where " +:+ logon_predicate)
  ∧ (generateQuery fresh_backend {| parsedSearch := logon_search; parsedAgg := None |}
       (rule_on auth_logsource [])).1
    = OK ("SELECT UTF8(payload) as search_payload from events where " +:+ logon_predicate).
Proof.
  split.
  - destruct (generateQuery_data_source fresh_backend
                {| parsedSearch := logon_search; parsedAgg := None |}
                (rule_on netflow_logsource []) netflow_logsource logon_predicate
                eq_refl logon_search_rendered eq_refl) as [[_ H]|[Hno _]]; [exact H|].
    exfalso. apply (Hno "netflow-idx"); [by left|]. by exists "net", "-idx".
  - destruct (generateQuery_data_source fresh_backend
                {| parsedSearch := logon_search; parsedAgg := None |}
                (rule_on auth_logsource []) auth_logsource logon_predicate
                eq_refl logon_search_rendered eq_refl) as [[Hsome _]|[_ H]]; [|exact H].
    exfalso. destruct Hsome as (i & Hin & Hocc%contains_occurs).
    apply list_elem_of_singleton in Hin as ->. by vm_compute in Hocc.
Defined.

(** X18: what a query that succeeds leaves on the backend: the resolved
    index patterns are stored; with an aggregation the stored prefix and
    suffix are the ones around the predicate in the query; without one the
    prefix and suffix stored by an earlier rule stay as they were. *)
Theorem generateQuery_state self parsed sigmaparser query self' :
  generateQuery self parsed sigmaparser = (OK query, self') →
  ∃ pred ls,
    generateNode (parsedSearch parsed) = OK pred
    ∧ rule_logsource sigmaparser = OK (Some ls)
    ∧ parsedlogsource self' = Some (index ls)
    ∧ (parsedAgg parsed = None →
       qradarPrefixAgg self' = qradarPrefixAgg self
       ∧ qradarSuffixAgg self' = qradarSuffixAgg self)
    ∧ (∀ agg, parsedAgg parsed = Some agg →
         ∃ p s, qradarPrefixAgg self' = Some p ∧ qradarSuffixAgg self' = Some s
                ∧ query = (p +:+ pred) +:+ s).
Proof.
  unfold generateQuery.
  destruct (generateNode (parsedSearch parsed)) as [pred|e]; [|done].
  destruct (rule_logsource sigmaparser) as [[ls|]|e]; [|done|done].
  destruct (parsedAgg parsed) as [agg|].
  - unfold generateAggregation.
    destruct (aggfunc agg), (groupfield agg); try done;
      intros [= <- <-]; exists pred, ls; do 4 (split; [done|]);
      intros ? [= <-]; by do 2 eexists.
  - intros [= <- <-]. exists pred, ls. do 4 (split; [done|]).
    intros ? [=].
Qed.

Lemma generateQuery_state_witness :
  ∃ query self',
    generateQuery fresh_backend
      {| parsedSearch := logon_search; parsedAgg := Some count_by_user |}
      (rule_on auth_logsource []) = (OK query, self')
    ∧ parsedlogsource self' = Some ["auth-idx"].
Proof.
  eexists _, _. split; [by vm_compute|].
  edestruct (generateQuery_state fresh_backend
               {| parsedSearch := logon_search; parsedAgg := Some count_by_user |}
               (rule_on auth_logsource []))
    as (pred & ls & _ & Hls & Hstored & _); [by vm_compute|].
  injection Hls as <-. exact Hstored.
Defined.

(** X19: a query that fails leaves the backend as it was when the predicate
    does not render or the log source does not resolve, and the error is
    then theirs, the renderer's first; an unsupported aggregation fails
    after the index patterns were stored. *)
Theorem generateQuery_failure self parsed sigmaparser e self' :
  generateQuery self parsed sigmaparser = (Err e, self') →
  (generateNode (parsedSearch parsed) = Err e ∧ self' = self)
  ∨ (∃ pred, generateNode (parsedSearch parsed) = OK pred
             ∧ (rule_logsource sigmaparser = Err e
                ∨ rule_logsource sigmaparser = OK None ∧ e = PyAttributeError)
             ∧ self' = self)
  ∨ (∃ pred ls agg,
       generateNode (parsedSearch parsed) = OK pred
       ∧ rule_logsource sigmaparser = OK (Some ls)
       ∧ parsedAgg parsed = Some agg ∧ aggfunc agg = AGGFUNC_NEAR
       ∧ e = UnsupportedAggregation
       ∧ parsedlogsource self' = Some (index ls)
       ∧ qradarPrefixAgg self' = qradarPrefixAgg self
       ∧ qradarSuffixAgg self' = qradarSuffixAgg self).
Proof.
  unfold generateQuery.
  destruct (generateNode (parsedSearch parsed)) as [pred|e'];
    [|intros [= <- <-]; by left].
  destruct (rule_logsource sigmaparser) as [[ls|]|e'].
  - destruct (parsedAgg parsed) as [agg|]; [|done].
    unfold generateAggregation.
    destruct (aggfunc agg) eqn:Hfn, (groupfield agg); try done;
      intros [= <- <-]; right; right; by exists pred, ls, agg.
  - intros [= <- <-]. right. left. exists pred. split; [done|]. split; [by right|done].
  - intros [= <- <-]. right. left. exists pred. split; [done|]. split; [by left|done].
Qed.

Lemma generateQuery_failure_witness :
  ∃ self',
    generateQuery fresh_backend
      {| parsedSearch := MapItem "EventID" (Unexpected YNull); parsedAgg := None |}
      (rule_on auth_logsource []) = (Err UnsupportedMapValueType, self')
    ∧ self' = fresh_backend.
Proof.
  eexists. split; [by vm_compute|].
  destruct (generateQuery_failure fresh_backend
              {| parsedSearch := MapItem "EventID" (Unexpected YNull); parsedAgg := None |}
              (rule_on auth_logsource []) UnsupportedMapValueType fresh_backend eq_refl)
    as [[_ H]|[(pred & _ & _ & H)|(pred & ls & agg & _ & _ & [=] & _)]]; exact H.
Defined.

(** ** Further properties of [generate] *)

(** X20: [generate] returns [None] exactly when the rule has no parsed
    condition; it raises exactly when the query of the first parsed
    condition raises, with the same error; and the backend is left as the
    query of the first parsed condition leaves it. *)
Theorem generate_outcome
    (generateBefore generateAfter : ParsedCondition → option string)
    self sigmaparser :
  ((generate generateBefore generateAfter self sigmaparser).1 = OK None
   ↔ condparsed sigmaparser = [])
  ∧ (condparsed sigmaparser = [] →
     (generate generateBefore generateAfter self sigmaparser).2 = self)
  ∧ (∀ first rest, condparsed sigmaparser = first :: rest →
       (generate generateBefore generateAfter self sigmaparser).2
       = (generateQuery self first sigmaparser).2
       ∧ ∀ e, (generate generateBefore generateAfter self sigmaparser).1 = Err e
              ↔ (generateQuery self first sigmaparser).1 = Err e).
Proof.
  unfold generate. destruct (condparsed sigmaparser) as [|first rest].
  - repeat split; done.
  - split; [|split; [done|]].
    + destruct (generateQuery self first sigmaparser) as [[query|e] self']; by split.
    + intros ? ? [= <- <-].
      destruct (generateQuery self first sigmaparser) as [[query|e] self']; simpl.
      * split; [done|]. by split.
      * split; [done|]. split; by intros [= <-].
Qed.

(** ** The sample configuration *)

(** The sample configuration is what loading the sample document and
    attaching a backend gives. *)
Lemma sysmon_configuration_loaded :
  ∃ self, SigmaConfiguration_init (Some sysmon_document) = OK self
          ∧ set_backend self (Some qradar_backend_object)
            = (OK (), sysmon_configuration).
Proof. eexists. split; [by vm_compute|]. by vm_compute. Qed.

Lemma sysmon_query_resolved :
  ∃ m, get_logsource sysmon_configuration None (Some "windows") (Some "sysmon")
       = OK m.
Proof. eexists. by vm_compute. Defined.

Lemma get_logsource_attributes_witness :
  ∃ m, get_logsource sysmon_configuration None (Some "windows") (Some "sysmon") = OK m
       ∧ ∀ v, service m = Some v → Some "sysmon" = Some v.
Proof.
  destruct sysmon_query_resolved as [m Hm]. exists m. split; [exact Hm|].
  intros v Hv.
  destruct (get_logsource_attributes _ _ _ _ m Hm) as (_ & _ & Hs & _).
  by destruct (Hs v Hv).
Defined.


Lemma merge_attributes_agree_witness :
  ∃ m, SigmaLogsourceConfiguration_init (FromList sysmon_definitions) YNull None
         (YStr MM_OR) None = OK m
       ∧ product m = Some "windows".
Proof.
  assert (∃ m, SigmaLogsourceConfiguration_init (FromList sysmon_definitions) YNull
                 None (YStr MM_OR) None = OK m) as [m Hm]
    by (eexists; by vm_compute).
  exists m. split; [exact Hm|].
  destruct (merge_attributes_agree _ _ _ _ _ m Hm) as (Hagree & _).
  refine (proj1 (proj2 (Hagree _ _)) "windows" _); [by left|done].
Defined.

Lemma merge_conditions_witness :
  ∃ m, SigmaLogsourceConfiguration_init (FromList sysmon_definitions) YNull None
         (YStr MM_OR) None = OK m
       ∧ (conditions m = None
          ↔ ∀ ls, ls ∈ sysmon_definitions → conditions ls = None).
Proof.
  assert (∃ m, SigmaLogsourceConfiguration_init (FromList sysmon_definitions) YNull
                 None (YStr MM_OR) None = OK m) as [m Hm]
    by (eexists; by vm_compute).
  exists m. split; [exact Hm|].
  by destruct (merge_conditions _ _ _ _ _ m Hm) as (Hnone & _).
Defined.

Lemma get_logsource_conditions_witness :
  ∃ m, get_logsource sysmon_configuration None (Some "windows") (Some "sysmon") = OK m
       ∧ ∀ items, conditions m ≠ Some (ConditionOR items).
Proof.
  destruct sysmon_query_resolved as [m Hm]. exists m. split; [exact Hm|].
  by destruct (get_logsource_conditions _ _ _ _ m Hm) as (_ & Hnever & _).
Defined.

Lemma loaded_definition_witness :
  ∃ ls, SigmaLogsourceConfiguration_init
          (FromYaml (YDict [("product", YStr "windows")])) (YStr "main")
          (Some "windows") (YStr MM_AND) None = OK ls
        ∧ index ls = [].
Proof.
  assert (∃ ls, SigmaLogsourceConfiguration_init
                  (FromYaml (YDict [("product", YStr "windows")])) (YStr "main")
                  (Some "windows") (YStr MM_AND) None = OK ls) as [ls Hls]
    by (eexists; by vm_compute).
  exists ls. split; [exact Hls|].
  destruct (loaded_definition _ _ _ _ _ ls Hls) as (_ & _ & _ & _ & Hidx & _).
  by apply Hidx.
Defined.

Lemma get_logsource_before_attach_witness :
  ∃ self, SigmaConfiguration_init (Some sysmon_document) = OK self
          ∧ ∀ m, get_logsource self None (Some "windows") (Some "sysmon") = OK m →
                 product m = None.
Proof.
  assert (∃ self, SigmaConfiguration_init (Some sysmon_document) = OK self)
    as [self Hself] by (eexists; by vm_compute).
  exists self. split; [exact Hself|]. intros m Hm.
  destruct (get_logsource_before_attach _ _ None (Some "windows") (Some "sysmon") Hself)
    as (Hnothing & _).
  by destruct (Hnothing m Hm) as (_ & Hp & _).
Defined.

(** ** List values with members of any type *)


